(** * The tolerant response normalizer and the orchestrator of gradio_app.py

    A shallow embedding of [safe_parse_json] and [process_inputs]
    (gradio_app.py) and of [encode_image] and [analyze_image_with_query]
    (brain_of_the_doctor.py), together with the parts of the Python
    runtime they rest on: [str.find], [str.rfind], slicing, [str.strip],
    [dict.get], [json.loads] and [json.dumps].

    The first part holds the definitions: Python strings and values, the
    JSON decoder and encoder, exceptions and the world a request runs
    in, then the two source files.  The second part holds the
    properties: searching and slicing, the three tiers of
    [safe_parse_json], the decoder (string literals, fuel, what the
    encoder writes), the response normalizer and the orchestrator. *)

From Stdlib Require Import Ascii String ZArith NArith Bool Lia List.
Import ListNotations.

#[local] Set Warnings "-register-all".

(** ** Python strings *)

(** A Python [str] is a sequence of Unicode code points. *)
Module PyStr.

Local Open Scope N_scope.

Abbreviation char := N (only parsing).
Abbreviation pystr := (list N) (only parsing).

(** [u "text"] is the Python literal ["text"], for ASCII text. *)
Fixpoint u (s : string) : pystr :=
  match s with
  | EmptyString => []
  | String a r => N_of_ascii a :: u r
  end.

Fixpoint str_eqb (a b : pystr) : bool :=
  match a, b with
  | [], [] => true
  | x :: a', y :: b' => N.eqb x y && str_eqb a' b'
  | _, _ => false
  end.

(** [s.startswith(p)] *)
Fixpoint startswith (p s : pystr) : bool :=
  match p, s with
  | [], _ => true
  | x :: p', y :: s' => N.eqb x y && startswith p' s'
  | _ :: _, [] => false
  end.

(** [s.find(sub)], counting from offset [i]: the lowest index at which
    [sub] occurs, or [-1]. *)
Fixpoint find_from (sub s : pystr) (i : Z) : Z :=
  if startswith sub s then i
  else match s with
       | [] => (-1)%Z
       | _ :: r => find_from sub r (i + 1)
       end.

Definition find (s sub : pystr) : Z := find_from sub s 0.

(** [s.rfind(sub)]: the highest index at which [sub] occurs, or [-1]. *)
Fixpoint rfind_from (sub s : pystr) (i : Z) : Z :=
  match s with
  | [] => if startswith sub [] then i else (-1)%Z
  | _ :: r =>
      let j := rfind_from sub r (i + 1) in
      if (j =? -1)%Z then (if startswith sub s then i else (-1)%Z) else j
  end.

Definition rfind (s sub : pystr) : Z := rfind_from sub s 0.

(** Slice bounds as Python normalises them: a negative bound counts from
    the end, and both are clamped to [0, len]. *)
Definition clamp (len i : Z) : Z :=
  if (i <? 0)%Z then Z.max 0 (i + len) else Z.min i len.

(** [s[lo:hi]] *)
Definition slice (s : pystr) (lo hi : Z) : pystr :=
  let len := Z.of_nat (length s) in
  let a := clamp len lo in
  let b := clamp len hi in
  firstn (Z.to_nat (b - a)) (skipn (Z.to_nat a) s).

(** The code points [str.isspace] accepts, which are the ones
    [str.strip()] removes. *)
Definition isspace (c : char) : bool :=
  ((9 <=? c) && (c <=? 13)) || ((28 <=? c) && (c <=? 32))
  || (c =? 133) || (c =? 160) || (c =? 5760)
  || ((8192 <=? c) && (c <=? 8202))
  || (c =? 8232) || (c =? 8233) || (c =? 8239) || (c =? 8287)
  || (c =? 12288).

Fixpoint lstrip (s : pystr) : pystr :=
  match s with
  | [] => []
  | c :: r => if isspace c then lstrip r else s
  end.

Definition rstrip (s : pystr) : pystr := rev (lstrip (rev s)).

(** [s.strip()] *)
Definition strip (s : pystr) : pystr := rstrip (lstrip s).

End PyStr.
Export PyStr.

(** ** Python values *)

(** The values [json.loads] can return.  A float is kept as the text it
    was read from; a dict keeps its items in insertion order. *)
Inductive pyval : Type :=
| PNone
| PBool (b : bool)
| PInt (z : Z)
| PFloat (lexeme : pystr)
| PStr (s : pystr)
| PList (l : list pyval)
| PDict (d : list (pystr * pyval)).

Definition pydict := list (pystr * pyval).

(** [d[k] = v]: an existing key keeps its place, a new one goes last. *)
Fixpoint dict_set (k : pystr) (v : pyval) (d : pydict) : pydict :=
  match d with
  | [] => [(k, v)]
  | (k', v') :: r =>
      if str_eqb k' k then (k, v) :: r else (k', v') :: dict_set k v r
  end.

Fixpoint dict_lookup (k : pystr) (d : pydict) : option pyval :=
  match d with
  | [] => None
  | (k', v) :: r => if str_eqb k' k then Some v else dict_lookup k r
  end.

(** [dict(pairs)] *)
Definition dict_of_pairs (pairs : list (pystr * pyval)) : pydict :=
  fold_left (fun d kv => dict_set (fst kv) (snd kv) d) pairs [].

(** ** json.loads *)

(** The decoder of Python's [json] module with its default settings
    (strict strings, no hooks).  A parser takes the text that is left
    and returns the value read and the text after it; [None] stands for
    the exception the decoder raises ([JSONDecodeError], or the
    [ValueError] of an over-long integer).  The interpreter's recursion
    limit is not modelled. *)
Module Json.

Local Open Scope N_scope.

Definition QUOTE : char := 34.
Definition BACKSLASH : char := 92.
Definition LBRACE : char := 123.
Definition RBRACE : char := 125.
Definition LBRACKET : char := 91.
Definition RBRACKET : char := 93.
Definition COLON : char := 58.
Definition COMMA : char := 44.
Definition MINUS : char := 45.
Definition PLUS : char := 43.
Definition DOT : char := 46.
Definition ZERO : char := 48.

(** WHITESPACE of json.decoder: space, tab, line feed, carriage return *)
Definition is_ws (c : char) : bool :=
  (c =? 32) || (c =? 9) || (c =? 10) || (c =? 13).

Fixpoint skip_ws (s : pystr) : pystr :=
  match s with
  | [] => []
  | c :: r => if is_ws c then skip_ws r else s
  end.

Definition hex_digit (c : char) : option N :=
  if (48 <=? c) && (c <=? 57) then Some (c - 48)
  else if (65 <=? c) && (c <=? 70) then Some (c - 55)
  else if (97 <=? c) && (c <=? 102) then Some (c - 87)
  else None.

(** [_decode_uXXXX]: the four hex digits after a backslash-u. *)
Definition decode_uXXXX (s : pystr) : option (N * pystr) :=
  match s with
  | a :: b :: c :: d :: r =>
      match hex_digit a, hex_digit b, hex_digit c, hex_digit d with
      | Some x, Some y, Some z, Some w =>
          Some (((x * 16 + y) * 16 + z) * 16 + w, r)
      | _, _, _, _ => None
      end
  | _ => None
  end.

(** [BACKSLASH] of json.decoder: the one-letter escapes. *)
Definition backslash_escape (e : char) : option char :=
  if e =? 34 then Some 34          (* quote *)
  else if e =? 92 then Some 92     (* backslash *)
  else if e =? 47 then Some 47     (* slash *)
  else if e =? 98 then Some 8      (* b: backspace *)
  else if e =? 102 then Some 12    (* f: form feed *)
  else if e =? 110 then Some 10    (* n: line feed *)
  else if e =? 114 then Some 13    (* r: carriage return *)
  else if e =? 116 then Some 9     (* t: tab *)
  else None.

Definition is_high_surrogate (n : N) : bool := (55296 <=? n) && (n <=? 56319).
Definition is_low_surrogate (n : N) : bool := (56320 <=? n) && (n <=? 57343).

(** [0x10000 + (((uni - 0xd800) << 10) | (uni2 - 0xdc00))] *)
Definition join_surrogates (hi lo : N) : N :=
  65536 + N.lor (N.shiftl (hi - 55296) 10) (lo - 56320).

Definition cons_to (c : char) (r : option (pystr * pystr)) :
  option (pystr * pystr) :=
  match r with
  | Some (v, rest) => Some (c :: v, rest)
  | None => None
  end.

(** [scanstring] in strict mode, entered just after the opening quote:
    the decoded string and the text after the closing quote. *)
Fixpoint scanstring_loop (fuel : nat) (s : pystr) : option (pystr * pystr) :=
  match fuel with
  | O => None
  | S f =>
      match s with
      | [] => None                                   (* unterminated *)
      | c :: r =>
          if c =? QUOTE then Some ([], r)
          else if c =? BACKSLASH then
            match r with
            | [] => None
            | e :: r1 =>
                if e =? 117 (* u *) then
                  match decode_uXXXX r1 with
                  | None => None
                  | Some (uni, r2) =>
                      if is_high_surrogate uni && startswith [BACKSLASH; 117] r2
                      then
                        match decode_uXXXX (skipn 2 r2) with
                        | None => None
                        | Some (uni2, r3) =>
                            if is_low_surrogate uni2
                            then cons_to (join_surrogates uni uni2)
                                         (scanstring_loop f r3)
                            else cons_to uni (scanstring_loop f r2)
                        end
                      else cons_to uni (scanstring_loop f r2)
                  end
                else
                  match backslash_escape e with
                  | Some x => cons_to x (scanstring_loop f r1)
                  | None => None
                  end
            end
          else if c <? 32 then None                  (* control character *)
          else cons_to c (scanstring_loop f r)
      end
  end.

Definition scanstring (s : pystr) : option (pystr * pystr) :=
  scanstring_loop (length s) s.

(** Numbers, as NUMBER_RE matches them: an integer part (an optional
    minus sign, then either a single 0 or a digit 1-9 followed by any
    digits), an optional fraction (a dot and one or more digits) and an
    optional exponent (e or E, an optional sign, one or more digits). *)
Definition is_digit (c : char) : bool := (48 <=? c) && (c <=? 57).

Fixpoint span_digits (s : pystr) : pystr * pystr :=
  match s with
  | [] => ([], [])
  | c :: r =>
      if is_digit c then let (ds, rest) := span_digits r in (c :: ds, rest)
      else ([], s)
  end.

(** group 1: the integer part *)
Definition match_integer (s : pystr) : option (pystr * pystr) :=
  let (sign, s1) :=
    match s with
    | c :: r => if c =? MINUS then ([MINUS], r) else ([], s)
    | [] => ([], s)
    end in
  match s1 with
  | d :: r =>
      if d =? ZERO then Some (sign ++ [ZERO], r)
      else if is_digit d then
        let (ds, rest) := span_digits r in Some (sign ++ d :: ds, rest)
      else None
  | [] => None
  end.

(** group 2: the fraction, empty when absent *)
Definition match_frac (s : pystr) : pystr * pystr :=
  match s with
  | c :: r =>
      if c =? DOT then
        match span_digits r with
        | ([], _) => ([], s)
        | (ds, rest) => (DOT :: ds, rest)
        end
      else ([], s)
  | [] => ([], s)
  end.

(** group 3: the exponent, empty when absent *)
Definition match_exp (s : pystr) : pystr * pystr :=
  match s with
  | e :: r =>
      if (e =? 101) || (e =? 69) then
        let (sign, r1) :=
          match r with
          | c :: r' => if (c =? MINUS) || (c =? PLUS) then ([c], r') else ([], r)
          | [] => ([], r)
          end in
        match span_digits r1 with
        | ([], _) => ([], s)
        | (ds, rest) => (e :: sign ++ ds, rest)
        end
      else ([], s)
  | [] => ([], s)
  end.

(** [int(text)] on a text matched by group 1. *)
Definition digits_value (ds : pystr) : Z :=
  fold_left (fun acc c => (acc * 10 + Z.of_N (c - 48))%Z) ds 0%Z.

Definition parse_int (text : pystr) : Z :=
  match text with
  | c :: r => if c =? MINUS then (- digits_value r)%Z else digits_value text
  | [] => 0%Z
  end.

Definition digit_count (text : pystr) : nat :=
  match text with
  | c :: r => if c =? MINUS then length r else length text
  | [] => O
  end.

(** [sys.get_int_max_str_digits()], at its default. *)
Definition int_max_str_digits : nat := 4300.

Definition match_number (s : pystr) : option (pyval * pystr) :=
  match match_integer s with
  | None => None
  | Some (integer, s1) =>
      let (frac, s2) := match_frac s1 in
      let (exp, s3) := match_exp s2 in
      match frac, exp with
      | [], [] =>
          if Nat.ltb int_max_str_digits (digit_count integer) then None
          else Some (PInt (parse_int integer), s3)
      | _, _ => Some (PFloat (integer ++ frac ++ exp), s3)
      end
  end.

(** [scan_once], [JSONObject] and [JSONArray] with the loops of the two
    latter.  [JSONObject] and [JSONArray] are entered just after the
    opening bracket, [object_members] just after the opening quote of a
    key, [array_elems] at the start of an element. *)
Fixpoint scan_once (fuel : nat) (s : pystr) : option (pyval * pystr) :=
  match fuel with
  | O => None
  | S f =>
      match s with
      | [] => None
      | c :: r =>
          if c =? QUOTE then
            match scanstring r with
            | Some (v, rest) => Some (PStr v, rest)
            | None => None
            end
          else if c =? LBRACE then JSONObject f r
          else if c =? LBRACKET then JSONArray f r
          else if startswith (u "null") s then Some (PNone, skipn 4 s)
          else if startswith (u "true") s then Some (PBool true, skipn 4 s)
          else if startswith (u "false") s then Some (PBool false, skipn 5 s)
          else
            match match_number s with
            | Some res => Some res
            | None =>
                if startswith (u "NaN") s
                then Some (PFloat (u "NaN"), skipn 3 s)
                else if startswith (u "Infinity") s
                then Some (PFloat (u "Infinity"), skipn 8 s)
                else if startswith (u "-Infinity") s
                then Some (PFloat (u "-Infinity"), skipn 9 s)
                else None
            end
      end
  end

with JSONObject (fuel : nat) (s : pystr) : option (pyval * pystr) :=
  match fuel with
  | O => None
  | S f =>
      match skip_ws s with
      | c :: r =>
          if c =? RBRACE then Some (PDict [], r)
          else if c =? QUOTE then object_members f r []
          else None
      | [] => None
      end
  end

with object_members (fuel : nat) (s : pystr) (pairs : list (pystr * pyval))
  : option (pyval * pystr) :=
  match fuel with
  | O => None
  | S f =>
      match scanstring s with
      | None => None
      | Some (key, s1) =>
          match skip_ws s1 with
          | c :: s2 =>
              if c =? COLON then
                match scan_once f (skip_ws s2) with
                | None => None
                | Some (value, s3) =>
                    let pairs' := pairs ++ [(key, value)] in
                    match skip_ws s3 with
                    | d :: s4 =>
                        if d =? RBRACE
                        then Some (PDict (dict_of_pairs pairs'), s4)
                        else if d =? COMMA then
                          match skip_ws s4 with
                          | q :: s5 =>
                              if q =? QUOTE then object_members f s5 pairs'
                              else None
                          | [] => None
                          end
                        else None
                    | [] => None
                    end
                end
              else None
          | [] => None
          end
      end
  end

with JSONArray (fuel : nat) (s : pystr) : option (pyval * pystr) :=
  match fuel with
  | O => None
  | S f =>
      match skip_ws s with
      | c :: r =>
          if c =? RBRACKET then Some (PList [], r)
          else array_elems f (c :: r) []
      | [] => None
      end
  end

with array_elems (fuel : nat) (s : pystr) (values : list pyval)
  : option (pyval * pystr) :=
  match fuel with
  | O => None
  | S f =>
      match scan_once f s with
      | None => None
      | Some (value, s1) =>
          let values' := values ++ [value] in
          match skip_ws s1 with
          | d :: s2 =>
              if d =? RBRACKET then Some (PList values', s2)
              else if d =? COMMA then array_elems f (skip_ws s2) values'
              else None
          | [] => None
          end
      end
  end.

(** Each character of the text pays for at most three nested calls. *)
Definition fuel_for (s : pystr) : nat := S (3 * length s).

(** [json.loads(s)] for a [str] argument: no byte-order mark, one value
    between optional whitespace, and nothing after it. *)
Definition loads (s : pystr) : option pyval :=
  if startswith [65279] s then None
  else
    match scan_once (fuel_for s) (skip_ws s) with
    | Some (v, rest) =>
        match skip_ws rest with
        | [] => Some v
        | _ :: _ => None
        end
    | None => None
    end.

End Json.

(** ** json.dumps *)

(** [json.dumps] with its default settings, on the dicts of
    gradio_app.py: string keys and string values. *)
Module JsonEnc.

Local Open Scope N_scope.

Definition hex_char (n : N) : char := if n <? 10 then 48 + n else 87 + n.

(** ['\\u{0:04x}'.format(n)] *)
Definition u_escape (n : N) : pystr :=
  [92; 117; hex_char (N.shiftr n 12 mod 16); hex_char (N.shiftr n 8 mod 16);
   hex_char (N.shiftr n 4 mod 16); hex_char (n mod 16)].

(** [replace] of [py_encode_basestring_ascii] with [ESCAPE_DCT]. *)
Definition escape_char (c : char) : pystr :=
  if c =? 92 then [92; 92]
  else if c =? 34 then [92; 34]
  else if c =? 8 then [92; 98]
  else if c =? 12 then [92; 102]
  else if c =? 10 then [92; 110]
  else if c =? 13 then [92; 114]
  else if c =? 9 then [92; 116]
  else if (32 <=? c) && (c <=? 126) then [c]
  else if c <? 65536 then u_escape c
  else
    let n := c - 65536 in
    u_escape (N.lor 55296 (N.land (N.shiftr n 10) 1023))
    ++ u_escape (N.lor 56320 (N.land n 1023)).

Definition encode_basestring_ascii (s : pystr) : pystr :=
  Json.QUOTE :: flat_map escape_char s ++ [Json.QUOTE].

Fixpoint join (sep : pystr) (parts : list pystr) : pystr :=
  match parts with
  | [] => []
  | [p] => p
  | p :: rest => p ++ sep ++ join sep rest
  end.

Definition dumps (d : list (pystr * pystr)) : pystr :=
  u "{"
  ++ join (u ", ")
       (map (fun kv => encode_basestring_ascii (fst kv) ++ u ": "
                       ++ encode_basestring_ascii (snd kv)) d)
  ++ u "}".

End JsonEnc.

(** ** Exceptions, the world and the collaborators *)

(** An exception is its class and [str(e)].  [pyexc] holds the instances
    of [Exception], which are the ones [except Exception] catches. *)
Inductive pyexc : Type :=
| AttributeError (msg : pystr)
| FileNotFoundError (msg : pystr)
| IsADirectoryError (msg : pystr)
| PermissionError (msg : pystr)
| OtherException (msg : pystr).

Definition exc_str (e : pyexc) : pystr :=
  match e with
  | AttributeError m | FileNotFoundError m | IsADirectoryError m
  | PermissionError m | OtherException m => m
  end.

(** The exceptions outside [Exception], which [except Exception] lets
    through. *)
Inductive pybaseexc : Type :=
| KeyboardInterrupt
| SystemExit
| OtherBaseException (name : pystr).

Inductive outcome (A : Type) : Type :=
| Returns (a : A)
| Raises (e : pyexc)
| RaisesBase (b : pybaseexc).
Arguments Returns {A} a.
Arguments Raises {A} e.
Arguments RaisesBase {A} b.

(** What a submission can see and change outside the process: the paths
    that exist in the working directory, and for the paths that exist but
    cannot be removed, the error [Path.unlink] raises there
    (IsADirectoryError for a directory, PermissionError for a file that
    may not be removed). *)
Record World : Type := World_of {
  files : list pystr;
  unlink_errors : list (pystr * pyexc)
}.

(** A world in which every file can be removed. *)
Definition mkWorld (files : list pystr) : World := World_of files [].

(** The error of removing the path [p], when it is there and cannot be
    removed. *)
Definition unlink_error (p : pystr) (w : World) : option pyexc :=
  if existsb (str_eqb p) (files w)
  then
    match List.find (fun pe => str_eqb p (fst pe)) (unlink_errors w) with
    | Some pe => Some (snd pe)
    | None => None
    end
  else None.

(** A computation that reads and writes the world and may raise. *)
Definition M (A : Type) : Type := World -> outcome A * World.

Definition ret {A} (a : A) : M A := fun w => (Returns a, w).

Definition raise {A} (e : pyexc) : M A := fun w => (Raises e, w).

Definition bind {A B} (m : M A) (k : A -> M B) : M B :=
  fun w =>
    match m w with
    | (Returns a, w') => k a w'
    | (Raises e, w') => (Raises e, w')
    | (RaisesBase b, w') => (RaisesBase b, w')
    end.

(** [try: body / except Exception as e: handler(e)] *)
Definition try_except {A} (body : M A) (handler : pyexc -> M A) : M A :=
  fun w =>
    match body w with
    | (Returns a, w') => (Returns a, w')
    | (Raises e, w') => handler e w'
    | (RaisesBase b, w') => (RaisesBase b, w')
    end.

Definition lift {A} (o : outcome A) : M A := fun w => (o, w).

Declare Scope py_scope.
Delimit Scope py_scope with py.
Notation "x <- m ;; k" := (bind m (fun x => k))
  (at level 61, m at next level, right associativity) : py_scope.
Notation "m ;;; k" := (bind m (fun _ => k))
  (at level 61, right associativity) : py_scope.

(** The world once the file at [p] is gone. *)
Definition without_file (p : pystr) (w : World) : World :=
  World_of (filter (fun q => negb (str_eqb p q)) (files w)) (unlink_errors w).

(** The world once a file is written at [p]. *)
Definition with_file (p : pystr) (w : World) : World :=
  World_of (p :: files w) (unlink_errors w).

(** [Path(p).exists()] and [Path(p).unlink()] *)
Definition path_exists (p : pystr) : M bool :=
  fun w => (Returns (existsb (str_eqb p) (files w)), w).

Definition unlink (p : pystr) : M unit :=
  fun w =>
    if existsb (str_eqb p) (files w)
    then
      match unlink_error p w with
      | Some e => (Raises e, w)
      | None => (Returns tt, without_file p w)
      end
    else
      (Raises (FileNotFoundError
                 (u "[Errno 2] No such file or directory: '" ++ p ++ u "'")),
       w).

(** [type(x).__name__] *)
Definition type_name (x : pyval) : pystr :=
  match x with
  | PNone => u "NoneType"
  | PBool _ => u "bool"
  | PInt _ => u "int"
  | PFloat _ => u "float"
  | PStr _ => u "str"
  | PList _ => u "list"
  | PDict _ => u "dict"
  end.

(** [x.get(k, default)]: of the values [json.loads] returns, only a dict
    has the method. *)
Definition py_get (x : pyval) (k : pystr) (default : pyval) : outcome pyval :=
  match x with
  | PDict d =>
      Returns (match dict_lookup k d with Some v => v | None => default end)
  | _ =>
      Raises (AttributeError
                (u "'" ++ type_name x ++ u "' object has no attribute 'get'"))
  end.

(** Truth of an optional path: [None] and the empty string are false. *)
Definition truthy (p : option pystr) : bool :=
  match p with
  | Some (_ :: _) => true
  | _ => false
  end.

Definition path_of (p : option pystr) : pystr :=
  match p with Some s => s | None => [] end.

(** [x or ""] for an optional string. *)
Definition or_empty (x : option pystr) : pystr :=
  match x with Some s => s | None => [] end.

(** [uq] reads a backquote as a double quote, which keeps JSON texts
    legible. *)
Definition uq (s : string) : pystr :=
  map (fun c => if N.eqb c 96 then 34%N else c) (u s).

Definition NL : pystr := [10%N].

(** ** gradio_app.py and brain_of_the_doctor.py *)

Definition MODEL_NAME : pystr := u "meta-llama/llama-4-scout-17b-16e-instruct".

Definition SYSTEM_PROMPT_TEMPLATE : pystr :=
  NL
  ++ u "You are a professional medical doctor speaking directly to a patient. " ++ NL
  ++ u "You will be given an image to analyze and an optional transcription of the patient's spoken context." ++ NL
  ++ uq "Produce a JSON object (and nothing else) with exactly two keys: `analysis` and `treatment`." ++ NL
  ++ NL
  ++ u "Rules:" ++ NL
  ++ uq "- `analysis`: one or two concise sentences describing what appears medically wrong in the image. Use a natural doctor voice, start with `With what I see, ...` and keep it short." ++ NL
  ++ uq "- `treatment`: 3 to 4 sentences giving practical remedies, next steps, and when to seek professional care. Use a natural doctor voice, clear steps, no bullet points or numbered lists." ++ NL
  ++ u "- Do not include any extra keys, commentary, or markdown. Respond ONLY with valid JSON." ++ NL
  ++ NL
  ++ uq "If the image is missing or unclear, set `analysis` to `Image not provided or unclear` and give a general short treatment in `treatment`." ++ NL.

Definition FALLBACK_ANALYSIS : pystr :=
  u "Could not parse structured analysis from the model output.".
Definition DEFAULT_ANALYSIS : pystr := u "Analysis not available.".
Definition DEFAULT_TREATMENT : pystr := u "Treatment not available.".
Definition KEY_ANALYSIS : pystr := u "analysis".
Definition KEY_TREATMENT : pystr := u "treatment".

(** The dict of the last [return] of [safe_parse_json]. *)
Definition fallback_record (model_text : pystr) : pyval :=
  PDict [(KEY_ANALYSIS, PStr FALLBACK_ANALYSIS);
         (KEY_TREATMENT, PStr (slice (strip model_text) 0 2000))].

(** [safe_parse_json]: the direct parse, then the text from the first
    opening brace to the last closing brace, then the fallback. *)
Definition safe_parse_json (model_text : pystr) : pyval :=
  match Json.loads model_text with
  | Some v => v
  | None =>
      let start := find model_text (u "{") in
      let end_ := rfind model_text (u "}") in
      if negb (start =? -1)%Z && negb (end_ =? -1)%Z && (end_ >? start)%Z
      then
        let candidate := slice model_text start (end_ + 1) in
        match Json.loads candidate with
        | Some v => v
        | None => fallback_record model_text
        end
      else fallback_record model_text
  end.

(** Step 3 of [process_inputs]: [safe_parse_json] and the two [get]s. *)
Definition parse_model_output (model_raw_output : pystr)
  : outcome (pyval * pyval) :=
  let parsed := safe_parse_json model_raw_output in
  match py_get parsed KEY_ANALYSIS (PStr DEFAULT_ANALYSIS) with
  | Raises e => Raises e
  | RaisesBase b => RaisesBase b
  | Returns analysis =>
      match py_get parsed KEY_TREATMENT (PStr DEFAULT_TREATMENT) with
      | Raises e => Raises e
      | RaisesBase b => RaisesBase b
      | Returns treatment => Returns (analysis, treatment)
      end
  end.

(** Step 3 on what the call of the model handed over, which is the
    [message.content] of the reply: a [str] or [None].  On [None],
    [json.loads] raises TypeError, which the first [except] of
    [safe_parse_json] catches, and [model_text.find] then raises
    AttributeError, which nothing catches. *)
Definition parse_reply (model_raw_output : option pystr)
  : outcome (pyval * pyval) :=
  match model_raw_output with
  | Some model_text => parse_model_output model_text
  | None =>
      Raises (AttributeError (u "'NoneType' object has no attribute 'find'"))
  end.

Section Orchestrator.

Local Open Scope py_scope.

(** The environment and the collaborators outside the two source files. *)

(** [os.environ.get("GROQ_API_KEY")] and [os.getenv("GROQ_API_KEY")] *)
Variable GROQ_KEY : option pystr.
Variable GROQ_API_KEY : option pystr.

(** [transcribe_with_groq(GROQ_API_KEY, audio_filepath, stt_model)] *)
Variable transcribe_with_groq :
  option pystr -> pystr -> pystr -> M (option pystr).

(** [text_to_speech_with_gtts(input_text, output_filepath)] *)
Variable text_to_speech_with_gtts : pystr -> pystr -> M unit.

(** [open(path, "rb").read()] and [base64.b64encode(b).decode('utf-8')] *)
Variable read_binary : pystr -> M (list N).
Variable b64encode : list N -> pystr.

(** [Groq(api_key).chat.completions.create(messages, model)
    .choices[0].message.content] for a message of one text part and one
    image part, given by its url.  The content of a reply is a [str] or
    [None]. *)
Variable chat_completion :
  option pystr -> pystr -> pystr -> pystr -> M (option pystr).

(** [str(v)] for a value that is not a [str]. *)
Variable repr_value : pyval -> pystr.

(** A value inside an f-string. *)
Definition fmt (v : pyval) : pystr :=
  match v with
  | PStr s => s
  | _ => repr_value v
  end.

Definition encode_image (image_path : pystr) : M pystr :=
  bytes <- read_binary image_path ;;
  ret (b64encode bytes).

Definition analyze_image_with_query
  (query model : pystr) (encoded_image : option pystr) : M (option pystr) :=
  let url :=
    u "data:image/jpeg;base64,"
    ++ match encoded_image with Some e => e | None => u "None" end in
  chat_completion GROQ_API_KEY model query url.

(** Step 1: speech to text. *)
Definition transcribe_step (audio_filepath : option pystr) : M pystr :=
  try_except
    (if truthy audio_filepath
     then r <- transcribe_with_groq GROQ_KEY (path_of audio_filepath)
                                    (u "whisper-large-v3") ;;
          ret (or_empty r)
     else ret [])
    (fun e => ret (u "[STT error: " ++ exc_str e ++ u "]")).

(** Step 2: the prompt and the call of the model. *)
Definition base_prompt (stt_text : pystr) : pystr :=
  let assembled_prompt := SYSTEM_PROMPT_TEMPLATE ++ NL ++ NL in
  match stt_text with
  | _ :: _ =>
      assembled_prompt ++ u "Patient speech (transcription): " ++ stt_text
      ++ NL ++ NL
  | [] => assembled_prompt
  end.

Definition query_model (stt_text : pystr) (image_filepath : option pystr)
  : M (option pystr) :=
  let assembled_prompt := base_prompt stt_text in
  if truthy image_filepath then
    try_except
      (encoded <- encode_image (path_of image_filepath) ;;
       analyze_image_with_query assembled_prompt MODEL_NAME (Some encoded))
      (fun e =>
         ret (Some (JsonEnc.dumps
                      [(KEY_ANALYSIS, u "Image processing error");
                       (KEY_TREATMENT,
                        u "Failed to analyze image due to error: "
                        ++ exc_str e)])))
  else
    let assembled_prompt := assembled_prompt ++ u "No image provided." in
    try_except
      (analyze_image_with_query assembled_prompt MODEL_NAME None)
      (fun e =>
         ret (Some (JsonEnc.dumps
                      [(KEY_ANALYSIS, u "Image not provided or unclear");
                       (KEY_TREATMENT,
                        u "No image was provided. If you can, please upload a clear photo. Error detail: "
                        ++ exc_str e)]))).

Definition TTS_PATH : pystr := u "final.mp3".

Definition tts_text (analysis treatment : pyval) : pystr :=
  fmt analysis ++ u " " ++ fmt treatment.

Definition tts_failure_note (treatment : pyval) (e : pyexc) : pyval :=
  PStr (fmt treatment ++ NL ++ NL ++ u "[TTS generation failed: "
        ++ exc_str e ++ u "]").

(** Step 4: the spoken reply; the treatment and the audio path that are
    returned.  The test, the removal of the old file and the synthesis
    are inside the one [try]. *)
Definition speak (analysis treatment : pyval) : M (pyval * option pystr) :=
  try_except
    (present <- path_exists TTS_PATH ;;
     (if present : bool then unlink TTS_PATH else ret tt) ;;;
     text_to_speech_with_gtts (tts_text analysis treatment) TTS_PATH ;;;
     ret (treatment, Some TTS_PATH))
    (fun e => ret (tts_failure_note treatment e, None)).

(** Steps 1 to 3: everything before the speech synthesis. *)
Definition upstream (audio_filepath image_filepath : option pystr)
  : M (pystr * pyval * pyval) :=
  stt_text <- transcribe_step audio_filepath ;;
  model_raw_output <- query_model stt_text image_filepath ;;
  at_ <- lift (parse_reply model_raw_output) ;;
  ret (stt_text, fst at_, snd at_).

Definition process_inputs (audio_filepath image_filepath : option pystr)
  : M (pystr * pyval * pyval * option pystr) :=
  stt_text <- transcribe_step audio_filepath ;;
  model_raw_output <- query_model stt_text image_filepath ;;
  at_ <- lift (parse_reply model_raw_output) ;;
  tp <- speak (fst at_) (snd at_) ;;
  ret (stt_text, fst at_, fst tp, snd tp).

End Orchestrator.

(** ** Notions the statements use *)

(** The test of the [if] of [safe_parse_json]. *)
Definition span_test (s : pystr) : bool :=
  negb (find s (u "{") =? -1)%Z && negb (rfind s (u "}") =? -1)%Z
  && (rfind s (u "}") >? find s (u "{"))%Z.

(** [candidate] is the part of [s] from its first opening brace to its
    last closing brace, both included, the latter after the former. *)
Definition first_to_last_brace (s candidate : pystr) : Prop :=
  exists pre mid post,
    s = pre ++ Json.LBRACE :: mid ++ Json.RBRACE :: post
    /\ ~ In Json.LBRACE pre /\ ~ In Json.RBRACE post
    /\ candidate = Json.LBRACE :: mid ++ [Json.RBRACE].

(** No opening brace of [s] has a closing brace after it. *)
Definition no_brace_span (s : pystr) : Prop :=
  forall pre mid post, s <> pre ++ Json.LBRACE :: mid ++ Json.RBRACE :: post.

(** Neither the whole text nor the brace span parses. *)
Definition unparseable (s : pystr) : Prop :=
  Json.loads s = None
  /\ forall candidate,
       first_to_last_brace s candidate -> Json.loads candidate = None.

(** The first or the second tier reads the JSON object [d]. *)
Definition parses_object (s : pystr) (d : pydict) : Prop :=
  Json.loads s = Some (PDict d)
  \/ (Json.loads s = None
      /\ exists candidate,
           first_to_last_brace s candidate
           /\ Json.loads candidate = Some (PDict d)).

(** [lit] is a JSON string literal that reads as [v]. *)
Definition string_literal (lit v : pystr) : Prop :=
  exists body,
    lit = Json.QUOTE :: body /\ Json.scanstring body = Some (v, []).

(** A Unicode scalar value: a code point that is not a surrogate. *)
Definition scalar (c : char) : bool :=
  (c <? 55296)%N || ((57343 <? c)%N && (c <=? 1114111)%N).

(** A JSON object of two members, written with the separators of
    [json.dumps]. *)
Definition object2 (klit1 vlit1 klit2 vlit2 : pystr) : pystr :=
  u "{" ++ klit1 ++ u ": " ++ vlit1 ++ u ", " ++ klit2 ++ u ": " ++ vlit2
  ++ u "}".

(** The analysis and the treatment of an object, where present, are
    strings. *)
Definition string_fields (d : pydict) : Prop :=
  (forall v, dict_lookup KEY_ANALYSIS d = Some v -> exists x, v = PStr x)
  /\ (forall v, dict_lookup KEY_TREATMENT d = Some v -> exists x, v = PStr x).

(** [s] neither starts nor ends with a character that [strip] removes. *)
Definition trimmed (s : pystr) : Prop :=
  (forall c r, s = c :: r -> isspace c = false)
  /\ (forall r c, s = r ++ [c] -> isspace c = false).

(** Both fields are there and are strings that are not empty. *)
Definition populated_nonempty (r : outcome (pyval * pyval)) : Prop :=
  exists a t, r = Returns (PStr a, PStr t) /\ a <> [] /\ t <> [].

(** The four values [process_inputs] returns. *)
Definition transcript_of (r : pystr * pyval * pyval * option pystr) : pystr :=
  fst (fst (fst r)).
Definition analysis_of (r : pystr * pyval * pyval * option pystr) : pyval :=
  snd (fst (fst r)).
Definition treatment_of (r : pystr * pyval * pyval * option pystr) : pyval :=
  snd (fst r).
Definition audio_of (r : pystr * pyval * pyval * option pystr)
  : option pystr := snd r.

(** Collaborators to run the orchestrator on: services that answer and
    services that fail. *)
Module Mock.

Definition transcribe_ok : option pystr -> pystr -> pystr -> M (option pystr) :=
  fun _ _ _ => ret (Some (u "my skin itches")).

Definition transcribe_down : option pystr -> pystr -> pystr -> M (option pystr) :=
  fun _ _ _ => raise (OtherException (u "connection refused")).

Definition tts_ok : pystr -> pystr -> M unit :=
  fun _ path w => (Returns tt, with_file path w).

Definition tts_down : pystr -> pystr -> M unit :=
  fun _ _ => raise (OtherException (u "no route to host")).

Definition read_binary : pystr -> M (list N) := fun _ => ret [137%N; 80%N].

Definition b64encode : list N -> pystr := fun _ => u "iVA=".

Definition chat
  : option pystr -> pystr -> pystr -> pystr -> M (option pystr) :=
  fun _ _ _ _ =>
    ret (Some (uq "{`analysis`: `a rash`, `treatment`: `keep it dry`}")).

Definition repr_value : pyval -> pystr := fun _ => u "None".

Definition key : option pystr := Some (u "gsk").

End Mock.

(** ** Notions for further properties *)

(** The text can open a JSON value: by its first character, or by one
    of the five words the decoder knows. *)
Definition value_start (s : pystr) : bool :=
  match s with
  | [] => false
  | c :: _ =>
      (c =? Json.QUOTE)%N || (c =? Json.LBRACE)%N || (c =? Json.LBRACKET)%N
      || (c =? Json.MINUS)%N || Json.is_digit c
      || startswith (u "null") s || startswith (u "true") s
      || startswith (u "false") s || startswith (u "NaN") s
      || startswith (u "Infinity") s
  end.

(** A member of a JSON object whose value is a string: the text of the
    key and of the value between their quotes, the whitespace around
    them, and the strings they denote. *)
Record member : Type := mkMember {
  m_before_key : pystr;
  m_key_body : pystr;
  m_after_key : pystr;
  m_before_value : pystr;
  m_value_body : pystr;
  m_after_value : pystr;
  m_key : pystr;
  m_value : pystr
}.

Definition member_text (m : member) : pystr :=
  m_before_key m ++ Json.QUOTE :: m_key_body m ++ m_after_key m
  ++ Json.COLON :: m_before_value m ++ Json.QUOTE :: m_value_body m
  ++ m_after_value m.

Definition well_formed (m : member) : Prop :=
  forallb Json.is_ws (m_before_key m) = true
  /\ forallb Json.is_ws (m_after_key m) = true
  /\ forallb Json.is_ws (m_before_value m) = true
  /\ forallb Json.is_ws (m_after_value m) = true
  /\ Json.scanstring (m_key_body m) = Some (m_key m, [])
  /\ Json.scanstring (m_value_body m) = Some (m_value m, []).

(** The members between braces, separated by commas. *)
Definition object_text (ms : list member) : pystr :=
  u "{" ++ JsonEnc.join (u ",") (map member_text ms) ++ u "}".

(** The text of the members from inside the first key on, up to the
    closing brace, followed by [rest]. *)
Fixpoint members_tail (m : member) (ms : list member) (rest : pystr) : pystr :=
  m_key_body m ++ m_after_key m ++ Json.COLON :: m_before_value m
  ++ Json.QUOTE :: m_value_body m ++ m_after_value m
  ++ match ms with
     | [] => Json.RBRACE :: rest
     | m' :: ms' =>
         Json.COMMA :: m_before_key m' ++ Json.QUOTE :: members_tail m' ms' rest
     end.

(** The value of the last member with key [k]. *)
Fixpoint last_value (k : pystr) (ms : list member) : option pystr :=
  match ms with
  | [] => None
  | m :: rest =>
      match last_value k rest with
      | Some v => Some v
      | None => if str_eqb (m_key m) k then Some (m_value m) else None
      end
  end.

(** A field as [process_inputs] takes it from such an object. *)
Definition field_of (k default : pystr) (ms : list member) : pyval :=
  match last_value k ms with
  | Some v => PStr v
  | None => PStr default
  end.

(** A reply laid out over several lines, with the treatment first, a
    key of its own and the analysis given twice. *)
Module Sample.

Definition m_treatment : member :=
  mkMember (NL ++ u "  ") (uq "treatment`") [] (u " ") (uq "rest\nwell`") []
           (u "treatment") (u "rest" ++ NL ++ u "well").

Definition m_note : member :=
  mkMember (NL ++ u "  ") (uq "note`") (u " ") [] (uq "x`") (u " ")
           (u "note") (u "x").

Definition m_first : member :=
  mkMember (NL ++ u "  ") (uq "analysis`") [] (u " ") (uq "first`") []
           (u "analysis") (u "first").

Definition m_second : member :=
  mkMember (NL ++ u "  ") (uq "analysis`") [] (u " ") (uq "second`") NL
           (u "analysis") (u "second").

Definition members : list member := [m_treatment; m_note; m_first; m_second].

End Sample.

(** The file at [p] exists in [w]. *)
Definition present (p : pystr) (w : World) : bool :=
  existsb (str_eqb p) (files w).

(** The computation [m] neither creates nor removes the file at [p]. *)
Definition keeps (p : pystr) {A : Type} (m : M A) : Prop :=
  forall w, present p (snd (m w)) = present p w.

(** More collaborators to run the orchestrator on: a file that cannot
    be read, a model service that is down, one whose reply has no
    content, and a synthesis that is interrupted from the keyboard. *)
Module MockMore.

Definition read_missing : pystr -> M (list N) :=
  fun _ =>
    raise (FileNotFoundError
             (u "[Errno 2] No such file or directory: 'skin.jpg'")).

Definition chat_down
  : option pystr -> pystr -> pystr -> pystr -> M (option pystr) :=
  fun _ _ _ _ => raise (OtherException (u "Connection error.")).

Definition chat_without_content
  : option pystr -> pystr -> pystr -> pystr -> M (option pystr) :=
  fun _ _ _ _ => ret None.

Definition tts_interrupted : pystr -> pystr -> M unit :=
  fun _ _ w => (RaisesBase KeyboardInterrupt, w).

(** A working directory in which final.mp3 is a directory. *)
Definition final_mp3_is_a_directory : World :=
  World_of [u "final.mp3"; u "notes.txt"]
           [(u "final.mp3",
             IsADirectoryError (u "[Errno 21] Is a directory: 'final.mp3'"))].

End MockMore.

(** * Properties *)

(** ** Searching and slicing *)

Module PyStrFacts.

Lemma str_eqb_eq (a b : pystr) : str_eqb a b = true <-> a = b.
Proof.
  revert b; induction a as [|x a IH]; intros [|y b]; simpl;
    try (split; congruence).
  rewrite andb_true_iff, N.eqb_eq, IH. split.
  - intros [-> ->]; reflexivity.
  - intros H; injection H; auto.
Qed.

Lemma str_eqb_refl (a : pystr) : str_eqb a a = true.
Proof. apply str_eqb_eq; reflexivity. Qed.

Lemma str_eqb_neq (a b : pystr) : str_eqb a b = false <-> a <> b.
Proof.
  rewrite <- str_eqb_eq. destruct (str_eqb a b); split; congruence.
Qed.

Lemma startswith_char (c : char) (s : pystr) :
  startswith [c] s = match s with y :: _ => N.eqb c y | [] => false end.
Proof. destruct s; simpl; [reflexivity | apply andb_true_r]. Qed.

Section OneChar.

Variable c : char.

Lemma find_from_absent (s : pystr) (i : Z) :
  ~ In c s -> find_from [c] s i = (-1)%Z.
Proof.
  revert i; induction s as [|y s IH]; intros i Hn.
  - reflexivity.
  - cbn [find_from]. rewrite startswith_char.
    destruct (N.eqb_spec c y) as [->|_].
    + exfalso; apply Hn; left; reflexivity.
    + apply IH. intros H; apply Hn; right; exact H.
Qed.

Lemma find_from_first (pre post : pystr) (i : Z) :
  ~ In c pre ->
  find_from [c] (pre ++ c :: post) i = (i + Z.of_nat (length pre))%Z.
Proof.
  revert i; induction pre as [|y pre IH]; intros i Hn.
  - cbn [app find_from length]. rewrite startswith_char, N.eqb_refl.
    simpl; lia.
  - cbn [app find_from]. rewrite startswith_char.
    destruct (N.eqb_spec c y) as [->|_].
    + exfalso; apply Hn; left; reflexivity.
    + rewrite IH by (intros H; apply Hn; right; exact H).
      cbn [length]; lia.
Qed.

Lemma find_from_bounds (pre post : pystr) (i : Z) :
  (i <= find_from [c] (pre ++ c :: post) i <= i + Z.of_nat (length pre))%Z.
Proof.
  revert i; induction pre as [|y pre IH]; intros i.
  - cbn [app find_from length]. rewrite startswith_char, N.eqb_refl.
    simpl; lia.
  - cbn [app find_from]. rewrite startswith_char.
    destruct (N.eqb c y).
    + cbn [length]; lia.
    + specialize (IH (i + 1)%Z). cbn [length]; lia.
Qed.

Lemma rfind_from_absent (s : pystr) (i : Z) :
  ~ In c s -> rfind_from [c] s i = (-1)%Z.
Proof.
  revert i; induction s as [|y s IH]; intros i Hn.
  - reflexivity.
  - cbn [rfind_from]. rewrite IH by (intros H; apply Hn; right; exact H).
    rewrite startswith_char. simpl.
    destruct (N.eqb_spec c y) as [->|_]; [|reflexivity].
    exfalso; apply Hn; left; reflexivity.
Qed.

Lemma rfind_from_range (s : pystr) (i : Z) :
  (0 <= i)%Z ->
  rfind_from [c] s i = (-1)%Z \/ (i <= rfind_from [c] s i)%Z.
Proof.
  revert i; induction s as [|y s IH]; intros i Hi.
  - left; reflexivity.
  - cbn [rfind_from]. destruct (IH (i + 1)%Z ltac:(lia)) as [E|E].
    + rewrite E. change ((-1 =? -1)%Z) with true. cbv iota.
      destruct (startswith [c] (y :: s)); [right; lia | left; reflexivity].
    + destruct (Z.eqb_spec (rfind_from [c] s (i + 1)) (-1)); [lia | right; lia].
Qed.

Lemma rfind_from_last (pre post : pystr) (i : Z) :
  (0 <= i)%Z -> ~ In c post ->
  rfind_from [c] (pre ++ c :: post) i = (i + Z.of_nat (length pre))%Z.
Proof.
  revert i; induction pre as [|y pre IH]; intros i Hi Hn.
  - cbn [app rfind_from length]. rewrite rfind_from_absent by exact Hn.
    rewrite startswith_char, N.eqb_refl. simpl; lia.
  - cbn [app rfind_from]. rewrite IH by (lia || exact Hn).
    destruct (Z.eqb_spec (i + 1 + Z.of_nat (length pre)) (-1)); [lia|].
    cbn [length]; lia.
Qed.

Lemma rfind_from_lower (pre post : pystr) (i : Z) :
  (0 <= i)%Z ->
  (i + Z.of_nat (length pre) <= rfind_from [c] (pre ++ c :: post) i)%Z.
Proof.
  revert i; induction pre as [|y pre IH]; intros i Hi.
  - cbn [app rfind_from length].
    destruct (rfind_from_range post (i + 1)%Z ltac:(lia)) as [E|E].
    + rewrite E. rewrite startswith_char, N.eqb_refl.
      change ((-1 =? -1)%Z) with true. cbv iota. lia.
    + destruct (Z.eqb_spec (rfind_from [c] post (i + 1)) (-1)); lia.
  - cbn [app rfind_from]. specialize (IH (i + 1)%Z ltac:(lia)).
    destruct (Z.eqb_spec (rfind_from [c] (pre ++ c :: post) (i + 1)) (-1));
      cbn [length]; lia.
Qed.

(** The first and the last occurrence of a character that occurs. *)
Lemma first_occurrence (s : pystr) :
  In c s -> exists pre post, s = pre ++ c :: post /\ ~ In c pre.
Proof.
  induction s as [|y s IH]; intros H; [destruct H|].
  destruct (N.eq_dec y c) as [->|Hne].
  - exists [], s. split; [reflexivity | intros []].
  - destruct H as [H|H]; [congruence|].
    destruct (IH H) as (pre & post & -> & Hn).
    exists (y :: pre), post. split; [reflexivity|].
    intros [E|E]; [congruence | exact (Hn E)].
Qed.

Lemma last_occurrence (s : pystr) :
  In c s -> exists pre post, s = pre ++ c :: post /\ ~ In c post.
Proof.
  intros H. apply in_rev in H.
  destruct (first_occurrence _ H) as (pre & post & E & Hn).
  exists (rev post), (rev pre). split.
  - rewrite <- (rev_involutive s), E, rev_app_distr. simpl.
    rewrite <- app_assoc. reflexivity.
  - intros Hin. apply Hn. apply in_rev in Hin. exact Hin.
Qed.

Lemma find_absent_iff (s : pystr) :
  find s [c] = (-1)%Z <-> ~ In c s.
Proof.
  split.
  - intros E Hin. destruct (first_occurrence _ Hin) as (pre & post & -> & Hn).
    unfold find in E. rewrite find_from_first in E by exact Hn. lia.
  - apply find_from_absent.
Qed.

Lemma rfind_absent_iff (s : pystr) :
  rfind s [c] = (-1)%Z <-> ~ In c s.
Proof.
  split.
  - intros E Hin. destruct (last_occurrence _ Hin) as (pre & post & -> & Hn).
    unfold rfind in E. rewrite rfind_from_last in E by (lia || exact Hn). lia.
  - apply rfind_from_absent.
Qed.

End OneChar.

(** Slices inside the bounds. *)
Lemma slice_middle (pre mid post : pystr) :
  slice (pre ++ mid ++ post) (Z.of_nat (length pre))
        (Z.of_nat (length pre + length mid)) = mid.
Proof.
  unfold slice, clamp. rewrite !length_app.
  destruct (Z.ltb_spec (Z.of_nat (length pre)) 0); [lia|].
  destruct (Z.ltb_spec (Z.of_nat (length pre + length mid)) 0); [lia|].
  rewrite !Z.min_l by lia.
  replace (Z.to_nat (Z.of_nat (length pre + length mid) - Z.of_nat (length pre)))
    with (length mid) by lia.
  rewrite Nat2Z.id, skipn_app, skipn_all, Nat.sub_diag. simpl.
  rewrite firstn_app, firstn_all, Nat.sub_diag. simpl. apply app_nil_r.
Qed.

Lemma slice_prefix (s : pystr) (n : nat) :
  slice s 0 (Z.of_nat n) = firstn n s.
Proof.
  unfold slice, clamp. change (0 <? 0)%Z with false. cbv iota.
  destruct (Z.ltb_spec (Z.of_nat n) 0); [lia|].
  rewrite (Z.min_l 0) by lia. change (Z.to_nat 0) with O. cbn [skipn].
  rewrite Z.sub_0_r.
  destruct (Nat.le_gt_cases n (length s)).
  - rewrite Z.min_l by lia. rewrite Nat2Z.id. reflexivity.
  - rewrite Z.min_r by lia. rewrite Nat2Z.id.
    rewrite firstn_all. symmetry. apply firstn_all2. lia.
Qed.

(** [strip] removes a run of spaces at each end, and all of it. *)
Lemma lstrip_split (s : pystr) :
  exists pre, s = pre ++ lstrip s /\ forallb isspace pre = true.
Proof.
  induction s as [|c s (pre & E & H)]; [exists []; split; reflexivity|].
  cbn [lstrip]. destruct (isspace c) eqn:C.
  - exists (c :: pre). split; [cbn [app]; congruence|].
    cbn [forallb]. rewrite C, H. reflexivity.
  - exists []. split; reflexivity.
Qed.

Lemma lstrip_head [s : pystr] [c : char] [r : pystr] :
  lstrip s = c :: r -> isspace c = false.
Proof.
  induction s as [|x s IH]; [discriminate|]. cbn [lstrip].
  destruct (isspace x) eqn:X; [exact IH|].
  intros E; injection E as <- _. exact X.
Qed.

Lemma lstrip_trimmed (s : pystr) :
  (forall c r, s = c :: r -> isspace c = false) -> lstrip s = s.
Proof.
  destruct s as [|c r]; [reflexivity|]. intros H.
  cbn [lstrip]. rewrite (H c r eq_refl). reflexivity.
Qed.

Lemma forallb_rev (f : char -> bool) (l : pystr) :
  forallb f (rev l) = forallb f l.
Proof.
  induction l as [|x l IH]; [reflexivity|]. cbn [rev forallb].
  rewrite forallb_app, IH. cbn [forallb].
  rewrite andb_true_r. apply andb_comm.
Qed.

Lemma rstrip_split (s : pystr) :
  exists post, s = rstrip s ++ post /\ forallb isspace post = true.
Proof.
  destruct (lstrip_split (rev s)) as (pre & E & H).
  exists (rev pre). split.
  - unfold rstrip. rewrite <- rev_app_distr, <- E. symmetry.
    apply rev_involutive.
  - rewrite forallb_rev. exact H.
Qed.

Lemma strip_split (s : pystr) :
  exists pre post,
    s = pre ++ strip s ++ post
    /\ forallb isspace pre = true /\ forallb isspace post = true.
Proof.
  destruct (lstrip_split s) as (pre & E & H).
  destruct (rstrip_split (lstrip s)) as (post & E' & H').
  exists pre, post. unfold strip. rewrite <- E'. auto.
Qed.

Lemma strip_trimmed (s : pystr) : trimmed (strip s).
Proof.
  unfold strip. split.
  - intros c r E.
    destruct (rstrip_split (lstrip s)) as (post & E' & _).
    rewrite E in E'. cbn [app] in E'. exact (lstrip_head E').
  - intros r c E. unfold rstrip in E.
    apply (f_equal (@rev char)) in E.
    rewrite rev_involutive, rev_app_distr in E. cbn [rev app] in E.
    exact (lstrip_head E).
Qed.

Lemma strip_of_trimmed (s : pystr) : trimmed s -> strip s = s.
Proof.
  intros [H1 H2]. unfold strip. rewrite (lstrip_trimmed _ H1).
  unfold rstrip. rewrite lstrip_trimmed; [apply rev_involutive|].
  intros c r E. apply (H2 (rev r) c).
  rewrite <- (rev_involutive s), E. reflexivity.
Qed.

End PyStrFacts.

(** ** The three tiers of [safe_parse_json] *)

Module Tiers.

Import PyStrFacts.

#[local] Abbreviation L := Json.LBRACE.
#[local] Abbreviation R := Json.RBRACE.

Lemma safe_parse_json_unfold (s : pystr) :
  safe_parse_json s =
  match Json.loads s with
  | Some v => v
  | None =>
      if span_test s then
        match Json.loads (slice s (find s (u "{")) (rfind s (u "}") + 1)) with
        | Some v => v
        | None => fallback_record s
        end
      else fallback_record s
  end.
Proof. reflexivity. Qed.

(** An opening brace with a closing brace somewhere after it makes the
    test succeed. *)
Lemma span_test_complete (s pre mid post : pystr) :
  s = pre ++ L :: mid ++ R :: post -> span_test s = true.
Proof.
  intros ->. unfold span_test.
  change (u "{") with [L]. change (u "}") with [R].
  pose proof (find_from_bounds L pre (mid ++ R :: post) 0) as Hf.
  pose proof (rfind_from_lower R (pre ++ L :: mid) post 0 ltac:(lia)) as Hr.
  rewrite <- app_assoc in Hr. cbn [app] in Hr.
  rewrite length_app in Hr. cbn [length] in Hr.
  unfold find, rfind.
  destruct (Z.eqb_spec (find_from [L] (pre ++ L :: mid ++ R :: post) 0) (-1));
    [lia|].
  destruct (Z.eqb_spec (rfind_from [R] (pre ++ L :: mid ++ R :: post) 0) (-1));
    [lia|].
  cbn [negb andb]. apply Z.gtb_lt. lia.
Qed.

(** The slice between the first opening and the last closing brace. *)
Lemma span_slice (pre mid post : pystr) :
  ~ In L pre -> ~ In R post ->
  slice (pre ++ L :: mid ++ R :: post)
        (find (pre ++ L :: mid ++ R :: post) (u "{"))
        (rfind (pre ++ L :: mid ++ R :: post) (u "}") + 1)
  = L :: mid ++ [R].
Proof.
  intros Hn1 Hn2. change (u "{") with [L]. change (u "}") with [R].
  unfold find. rewrite find_from_first by exact Hn1.
  unfold rfind.
  replace (pre ++ L :: mid ++ R :: post) with ((pre ++ L :: mid) ++ R :: post)
    at 2 by (rewrite <- app_assoc; reflexivity).
  rewrite rfind_from_last by (lia || exact Hn2).
  replace (pre ++ L :: mid ++ R :: post)
    with (pre ++ (L :: mid ++ [R]) ++ post)
    by (cbn [app]; rewrite <- app_assoc; reflexivity).
  replace (0 + Z.of_nat (length (pre ++ L :: mid)) + 1)%Z
    with (Z.of_nat (length pre + length (L :: mid ++ [R]))).
  - apply slice_middle.
  - rewrite length_app. cbn [length]. rewrite length_app.
    cbn [length]. lia.
Qed.

(** When the test succeeds there is an opening brace with a closing
    brace after it. *)
Lemma span_test_sound (s : pystr) :
  span_test s = true ->
  exists pre mid post,
    s = pre ++ L :: mid ++ R :: post /\ ~ In L pre /\ ~ In R post.
Proof.
  unfold span_test. change (u "{") with [L]. change (u "}") with [R].
  intros H. apply andb_true_iff in H as [H Hgt].
  apply andb_true_iff in H as [Hs He].
  apply negb_true_iff, Z.eqb_neq in Hs, He. apply Z.gtb_lt in Hgt.
  assert (HL : In L s).
  { destruct (in_dec N.eq_dec L s) as [i|n]; [exact i|].
    apply find_absent_iff in n. contradiction. }
  assert (HR : In R s).
  { destruct (in_dec N.eq_dec R s) as [i|n]; [exact i|].
    apply rfind_absent_iff in n. contradiction. }
  destruct (first_occurrence _ _ HL) as (pre & r1 & E1 & Hn1).
  destruct (last_occurrence _ _ HR) as (pre2 & post & E2 & Hn2).
  assert (F : find s [L] = Z.of_nat (length pre)).
  { rewrite E1. unfold find. rewrite find_from_first by exact Hn1. lia. }
  assert (G : rfind s [R] = Z.of_nat (length pre2)).
  { rewrite E2. unfold rfind.
    rewrite rfind_from_last by (lia || exact Hn2). lia. }
  rewrite F, G in Hgt.
  assert (E : pre ++ L :: r1 = pre2 ++ R :: post) by congruence.
  destruct (app_eq_app _ _ _ _ E) as (l & [[A _]|[A B]]).
  { subst pre. rewrite length_app in Hgt. lia. }
  destruct l as [|x mid].
  { rewrite app_nil_r in A. subst pre2. lia. }
  cbn [app] in B. injection B as <- ->.
  exists pre, mid, post. repeat split; assumption.
Qed.

(** The tiers, one by one. *)
Lemma tier1 (s : pystr) (v : pyval) :
  Json.loads s = Some v -> safe_parse_json s = v.
Proof. intros E. rewrite safe_parse_json_unfold, E. reflexivity. Qed.

Lemma tier2 (pre mid post : pystr) :
  Json.loads (pre ++ L :: mid ++ R :: post) = None ->
  ~ In L pre -> ~ In R post ->
  safe_parse_json (pre ++ L :: mid ++ R :: post) =
  match Json.loads (L :: mid ++ [R]) with
  | Some v => v
  | None => fallback_record (pre ++ L :: mid ++ R :: post)
  end.
Proof.
  intros E H1 H2. rewrite safe_parse_json_unfold, E.
  rewrite (span_test_complete _ pre mid post eq_refl).
  rewrite span_slice by assumption. reflexivity.
Qed.

Lemma tier3 (s : pystr) :
  Json.loads s = None ->
  (forall pre mid post, s <> pre ++ L :: mid ++ R :: post) ->
  safe_parse_json s = fallback_record s.
Proof.
  intros E H. rewrite safe_parse_json_unfold, E.
  destruct (span_test s) eqn:T; [|reflexivity].
  destruct (span_test_sound _ T) as (pre & mid & post & A & _).
  destruct (H _ _ _ A).
Qed.

End Tiers.

(** ** The decoder on string literals and on flat objects *)

Module JsonFacts.

Import Json.

Local Open Scope N_scope.

Lemma cons_to_some (c : char) (r : option (pystr * pystr)) (v rest : pystr) :
  cons_to c r = Some (v, rest) ->
  exists v', r = Some (v', rest) /\ v = c :: v'.
Proof.
  destruct r as [[v' rest']|]; simpl; [|discriminate].
  intros H; injection H as <- <-. exists v'; split; reflexivity.
Qed.

Lemma decode_uXXXX_app [s : pystr] (t : pystr) [n : N] [r : pystr] :
  decode_uXXXX s = Some (n, r) -> decode_uXXXX (s ++ t) = Some (n, r ++ t).
Proof.
  destruct s as [|a [|b [|c [|d s]]]]; try discriminate.
  cbn [decode_uXXXX app].
  destruct (hex_digit a), (hex_digit b), (hex_digit c), (hex_digit d);
    try discriminate.
  intros H; injection H as <- <-. reflexivity.
Qed.

Lemma decode_uXXXX_length [s : pystr] [n : N] [r : pystr] :
  decode_uXXXX s = Some (n, r) -> length s = (4 + length r)%nat.
Proof.
  destruct s as [|a [|b [|c [|d s]]]]; try discriminate.
  cbn [decode_uXXXX].
  destruct (hex_digit a), (hex_digit b), (hex_digit c), (hex_digit d);
    try discriminate.
  intros H; injection H as _ <-. reflexivity.
Qed.

(** A scan that succeeds never stopped where a surrogate pair could have
    begun in a longer text. *)
Lemma lookahead_app (n : nat) (s t : pystr) :
  scanstring_loop n s <> None ->
  startswith [BACKSLASH; 117] (s ++ t) = startswith [BACKSLASH; 117] s.
Proof.
  destruct s as [|c [|e s]]; intros H.
  - destruct n; exfalso; apply H; reflexivity.
  - destruct n; [exfalso; apply H; reflexivity|].
    cbn [scanstring_loop] in H. cbn [app startswith].
    destruct (N.eqb_spec BACKSLASH c) as [<-|_]; [|reflexivity].
    exfalso; apply H; reflexivity.
  - reflexivity.
Qed.

Lemma skipn2_app [s : pystr] (t : pystr) :
  startswith [BACKSLASH; 117] s = true -> skipn 2 (s ++ t) = skipn 2 s ++ t.
Proof. destruct s as [|c [|e s]]; simpl; try discriminate.
  - rewrite andb_false_r. discriminate.
  - reflexivity.
Qed.

Lemma startswith_app [p s : pystr] (t : pystr) :
  startswith p s = true -> startswith p (s ++ t) = true.
Proof.
  revert s; induction p as [|x p IH]; intros [|y s]; simpl; try congruence.
  rewrite !andb_true_iff. intros [-> H]. split; [reflexivity | apply IH, H].
Qed.

(** Scanning a string literal does not look past its closing quote. *)
Lemma scanstring_loop_app (n : nat) :
  forall (l v rest : pystr),
    scanstring_loop n l = Some (v, rest) ->
    forall (m : nat) (t : pystr),
      (length l <= m)%nat ->
      scanstring_loop m (l ++ t) = Some (v, rest ++ t).
Proof.
  induction n as [|n IH]; intros l v rest H m t Hm; [discriminate|].
  destruct l as [|c r]; [discriminate|].
  destruct m as [|m]; [simpl in Hm; lia|].
  cbn [length] in Hm. cbn [scanstring_loop app] in *.
  destruct (c =? QUOTE).
  { injection H as <- <-. reflexivity. }
  destruct (c =? BACKSLASH).
  - destruct r as [|e r1]; [discriminate|]. cbn [app length] in *.
    destruct (e =? 117).
    + destruct (decode_uXXXX r1) as [[uni r2]|] eqn:D; [|discriminate].
      rewrite (decode_uXXXX_app t D).
      apply decode_uXXXX_length in D.
      destruct (is_high_surrogate uni); cbn [andb] in *.
      * destruct (startswith [BACKSLASH; 117] r2) eqn:SW.
        -- rewrite (startswith_app t SW), (skipn2_app t SW).
           destruct (decode_uXXXX (skipn 2 r2)) as [[uni2 r3]|] eqn:D2;
             [|discriminate].
           rewrite (decode_uXXXX_app t D2).
           apply decode_uXXXX_length in D2.
           pose proof (length_skipn 2 r2) as Hs.
           destruct (is_low_surrogate uni2);
             apply cons_to_some in H as (v' & H & ->);
             rewrite (IH _ _ _ H m t) by lia; reflexivity.
        -- apply cons_to_some in H as (v' & H & ->).
           rewrite (lookahead_app n r2 t) by congruence.
           rewrite SW. rewrite (IH _ _ _ H m t) by lia. reflexivity.
      * apply cons_to_some in H as (v' & H & ->).
        rewrite (IH _ _ _ H m t) by lia. reflexivity.
    + destruct (backslash_escape e); [|discriminate].
      apply cons_to_some in H as (v' & H & ->).
      rewrite (IH _ _ _ H m t) by lia. reflexivity.
  - destruct (c <? 32); [discriminate|].
    apply cons_to_some in H as (v' & H & ->).
    rewrite (IH _ _ _ H m t) by lia. reflexivity.
Qed.

Lemma scanstring_app [l v rest : pystr] (t : pystr) :
  scanstring l = Some (v, rest) -> scanstring (l ++ t) = Some (v, rest ++ t).
Proof.
  unfold scanstring. intros H.
  apply (scanstring_loop_app _ _ _ _ H). rewrite length_app. lia.
Qed.

(** The fuel of [scanstring] is enough: more changes nothing. *)
Lemma scanstring_loop_enough (n : nat) :
  forall (l : pystr), (length l <= n)%nat ->
    scanstring_loop n l = scanstring l.
Proof.
  intros l Hn. unfold scanstring.
  destruct (scanstring_loop (length l) l) as [[v rest]|] eqn:E.
  - pose proof (scanstring_loop_app _ _ _ _ E n [] Hn) as H.
    rewrite !app_nil_r in H. exact H.
  - destruct (scanstring_loop n l) as [[v rest]|] eqn:F; [|reflexivity].
    pose proof (scanstring_loop_app _ _ _ _ F (length l) [] (le_n _)) as H.
    rewrite !app_nil_r in H. congruence.
Qed.

(** One step of each parser. *)
Lemma scan_once_quote (f : nat) (r : pystr) :
  scan_once (S f) (QUOTE :: r) =
  match scanstring r with
  | Some (v, rest) => Some (PStr v, rest)
  | None => None
  end.
Proof. reflexivity. Qed.

Lemma scan_once_lbrace (f : nat) (r : pystr) :
  scan_once (S f) (LBRACE :: r) = JSONObject f r.
Proof. reflexivity. Qed.

Lemma JSONObject_quote (f : nat) (r : pystr) :
  JSONObject (S f) (QUOTE :: r) = object_members f r [].
Proof. reflexivity. Qed.

(** A member whose value is a string, followed by another member. *)
Lemma object_members_string_more
  (f : nat) (kb vb rest : pystr) (k v : pystr) (pairs : list (pystr * pyval)) :
  scanstring kb = Some (k, []) -> scanstring vb = Some (v, []) ->
  object_members (S (S f))
    (kb ++ COLON :: 32 :: QUOTE :: vb ++ COMMA :: 32 :: QUOTE :: rest) pairs
  = object_members (S f) rest (pairs ++ [(k, PStr v)]).
Proof.
  intros Hk Hv. cbn [object_members].
  rewrite (scanstring_app _ Hk). cbn [app skip_ws].
  change (is_ws COLON) with false. cbv iota.
  change (COLON =? COLON) with true. cbv iota.
  cbn [skip_ws]. change (is_ws 32) with true. cbv iota.
  cbn [skip_ws]. change (is_ws QUOTE) with false. cbv iota.
  rewrite scan_once_quote, (scanstring_app _ Hv). cbn [app skip_ws].
  change (is_ws COMMA) with false. cbv iota.
  change (COMMA =? RBRACE) with false. change (COMMA =? COMMA) with true.
  cbv iota. cbn [skip_ws].
  change (is_ws 32) with true. cbv iota.
  cbn [skip_ws]. change (is_ws QUOTE) with false. cbv iota.
  change (QUOTE =? QUOTE) with true. cbv iota. reflexivity.
Qed.

(** A member whose value is a string, closing the object. *)
Lemma object_members_string_last
  (f : nat) (kb vb rest : pystr) (k v : pystr) (pairs : list (pystr * pyval)) :
  scanstring kb = Some (k, []) -> scanstring vb = Some (v, []) ->
  object_members (S (S f))
    (kb ++ COLON :: 32 :: QUOTE :: vb ++ RBRACE :: rest) pairs
  = Some (PDict (dict_of_pairs (pairs ++ [(k, PStr v)])), rest).
Proof.
  intros Hk Hv. cbn [object_members].
  rewrite (scanstring_app _ Hk). cbn [app skip_ws].
  change (is_ws COLON) with false. cbv iota.
  change (COLON =? COLON) with true. cbv iota.
  cbn [skip_ws]. change (is_ws 32) with true. cbv iota.
  cbn [skip_ws]. change (is_ws QUOTE) with false. cbv iota.
  rewrite scan_once_quote, (scanstring_app _ Hv). cbn [app skip_ws].
  change (is_ws RBRACE) with false. cbv iota.
  change (RBRACE =? RBRACE) with true. cbv iota. reflexivity.
Qed.

Lemma loads_object2 (klit1 vlit1 klit2 vlit2 k1 v1 k2 v2 : pystr) :
  string_literal klit1 k1 -> string_literal vlit1 v1 ->
  string_literal klit2 k2 -> string_literal vlit2 v2 ->
  loads (object2 klit1 vlit1 klit2 vlit2)
  = Some (PDict (dict_of_pairs [(k1, PStr v1); (k2, PStr v2)])).
Proof.
  intros (kb1 & -> & K1) (vb1 & -> & V1) (kb2 & -> & K2) (vb2 & -> & V2).
  unfold loads, object2. change (u "{") with [LBRACE].
  change (u ": ") with [COLON; 32]. change (u ", ") with [COMMA; 32].
  change (u "}") with [RBRACE]. cbn [app].
  change (startswith [65279] (LBRACE :: ?x)) with false. cbv iota.
  cbn [skip_ws]. change (is_ws LBRACE) with false. cbv iota.
  unfold fuel_for. cbn [length]. rewrite !length_app. cbn [length].
  match goal with
  | |- context [scan_once (S ?n)] =>
      replace n with (S (S (S (S (n - 4))))) by lia
  end.
  rewrite scan_once_lbrace, JSONObject_quote.
  rewrite (object_members_string_more _ _ _ _ _ _ [] K1 V1).
  rewrite (object_members_string_last _ _ _ _ _ _ _ K2 V2).
  reflexivity.
Qed.

(** A text that opens with a brace is read as an object or not at all. *)
Lemma object_members_dict (n : nat) :
  forall s p v r, object_members n s p = Some (v, r) -> exists d, v = PDict d.
Proof.
  induction n as [|n IH]; intros s p v r H; [discriminate|].
  cbn [object_members] in H.
  destruct (scanstring s) as [[key s1]|]; [|discriminate].
  destruct (skip_ws s1) as [|c s2]; [discriminate|].
  destruct (c =? COLON); [|discriminate].
  destruct (scan_once n (skip_ws s2)) as [[value s3]|]; [|discriminate].
  destruct (skip_ws s3) as [|d s4]; [discriminate|].
  destruct (d =? RBRACE).
  { injection H as <- _. eexists; reflexivity. }
  destruct (d =? COMMA); [|discriminate].
  destruct (skip_ws s4) as [|q s5]; [discriminate|].
  destruct (q =? QUOTE); [|discriminate].
  exact (IH _ _ _ _ H).
Qed.

Lemma loads_brace_dict (x : pystr) (v : pyval) :
  loads (LBRACE :: x) = Some v -> exists d, v = PDict d.
Proof.
  unfold loads, fuel_for.
  change (startswith [65279] (LBRACE :: x)) with false. cbv iota.
  cbn [skip_ws length]. change (is_ws LBRACE) with false. cbv iota.
  rewrite scan_once_lbrace.
  destruct (JSONObject (3 * S (length x)) x) as [[w r]|] eqn:E;
    [|discriminate].
  destruct (skip_ws r); [|discriminate].
  intros H; injection H as <-.
  destruct (3 * S (length x))%nat as [|f]; [discriminate|].
  cbn [JSONObject] in E.
  destruct (skip_ws x) as [|c r0]; [discriminate|].
  destruct (c =? RBRACE).
  { injection E as <- _. eexists; reflexivity. }
  destruct (c =? QUOTE); [|discriminate].
  exact (object_members_dict _ _ _ _ _ E).
Qed.

End JsonFacts.

(** ** The fuel of the decoder is enough *)

Module JsonFuel.

Import Json.

Local Open Scope N_scope.

Lemma skip_ws_length (s : pystr) : (length (skip_ws s) <= length s)%nat.
Proof.
  induction s as [|c s IH]; simpl; [lia|].
  destruct (is_ws c); simpl; lia.
Qed.

Lemma skip_ws_cons (s : pystr) (c : char) (r : pystr) :
  skip_ws s = c :: r -> (length r < length s)%nat.
Proof.
  intros E. pose proof (skip_ws_length s) as H. rewrite E in H.
  simpl in H. lia.
Qed.

Lemma scanstring_loop_length (n : nat) :
  forall (s v r : pystr),
    scanstring_loop n s = Some (v, r) -> (length r < length s)%nat.
Proof.
  induction n as [|n IH]; intros s v r H; [discriminate|].
  destruct s as [|c s]; [discriminate|].
  cbn [scanstring_loop] in H.
  destruct (c =? QUOTE).
  { injection H as _ <-. simpl; lia. }
  destruct (c =? BACKSLASH).
  - destruct s as [|e s1]; [discriminate|].
    destruct (e =? 117).
    + destruct (decode_uXXXX s1) as [[uni s2]|] eqn:D; [|discriminate].
      apply JsonFacts.decode_uXXXX_length in D.
      destruct (is_high_surrogate uni && startswith [BACKSLASH; 117] s2).
      * destruct (decode_uXXXX (skipn 2 s2)) as [[uni2 s3]|] eqn:D2;
          [|discriminate].
        apply JsonFacts.decode_uXXXX_length in D2.
        pose proof (length_skipn 2 s2) as Hs.
        destruct (is_low_surrogate uni2);
          apply JsonFacts.cons_to_some in H as (v' & H & _);
          apply IH in H; cbn [length]; lia.
      * apply JsonFacts.cons_to_some in H as (v' & H & _).
        apply IH in H; cbn [length]; lia.
    + destruct (backslash_escape e); [|discriminate].
      apply JsonFacts.cons_to_some in H as (v' & H & _).
      apply IH in H; cbn [length]; lia.
  - destruct (c <? 32); [discriminate|].
    apply JsonFacts.cons_to_some in H as (v' & H & _).
    apply IH in H; cbn [length]; lia.
Qed.

Lemma scanstring_length (s v r : pystr) :
  scanstring s = Some (v, r) -> (length r < length s)%nat.
Proof. apply scanstring_loop_length. Qed.

Lemma span_digits_length (s : pystr) :
  (length (snd (span_digits s)) <= length s)%nat.
Proof.
  induction s as [|c s IH]; simpl; [lia|].
  destruct (is_digit c); [|simpl; lia].
  destruct (span_digits s) as [ds rest]. simpl in *. lia.
Qed.

Lemma match_integer_length (s text r : pystr) :
  match_integer s = Some (text, r) -> (length r < length s)%nat.
Proof.
  unfold match_integer.
  assert (A : forall sign s1, (length s1 <= length s)%nat ->
            match s1 with
            | [] => None
            | d :: r0 =>
                if d =? ZERO then Some (sign ++ [ZERO], r0)
                else if is_digit d
                     then let (ds, rest) := span_digits r0 in
                          Some (sign ++ d :: ds, rest)
                     else None
            end = Some (text, r) -> (length r < length s)%nat).
  { intros sign [|d r0] Hl; [discriminate|]. simpl in Hl.
    destruct (d =? ZERO).
    - intros H; injection H as _ <-. lia.
    - destruct (is_digit d); [|discriminate].
      pose proof (span_digits_length r0) as Hd.
      destruct (span_digits r0) as [ds rest]. simpl in Hd.
      intros H; injection H as _ <-. lia. }
  destruct s as [|c s']; [discriminate|].
  destruct (c =? MINUS);
    [apply (A [MINUS] s') | apply (A [] (c :: s'))]; simpl; lia.
Qed.

Lemma match_frac_length (s : pystr) :
  (length (snd (match_frac s)) <= length s)%nat.
Proof.
  destruct s as [|c r]; simpl; [lia|].
  destruct (c =? DOT); [|simpl; lia].
  pose proof (span_digits_length r) as H.
  destruct (span_digits r) as [[|d ds] rest]; simpl in *; lia.
Qed.

Lemma match_exp_length (s : pystr) :
  (length (snd (match_exp s)) <= length s)%nat.
Proof.
  destruct s as [|e r]; simpl; [lia|].
  destruct ((e =? 101) || (e =? 69)); [|simpl; lia].
  assert (A : forall sign r1, (length r1 <= length r)%nat ->
            (length (snd match span_digits r1 with
                         | ([], _) => ([], e :: r)
                         | (ds, rest) => (e :: sign ++ ds, rest)
                         end) <= S (length r))%nat).
  { intros sign r1 Hl. pose proof (span_digits_length r1) as H.
    destruct (span_digits r1) as [[|d ds] rest]; simpl in *; lia. }
  destruct r as [|c r'].
  - apply (A [] []). simpl; lia.
  - destruct ((c =? MINUS) || (c =? PLUS));
      [apply (A [c] r') | apply (A [] (c :: r'))]; simpl; lia.
Qed.

Lemma match_number_length (s : pystr) (v : pyval) (r : pystr) :
  match_number s = Some (v, r) -> (length r < length s)%nat.
Proof.
  unfold match_number.
  destruct (match_integer s) as [[integer s1]|] eqn:I; [|discriminate].
  apply match_integer_length in I.
  pose proof (match_frac_length s1) as F.
  destruct (match_frac s1) as [frac s2].
  pose proof (match_exp_length s2) as X.
  destruct (match_exp s2) as [exp s3]. simpl in F, X.
  destruct frac, exp;
    try (intros H; injection H as _ <-; lia).
  destruct (Nat.ltb int_max_str_digits (digit_count integer));
    [discriminate|].
  intros H; injection H as _ <-; lia.
Qed.

Lemma startswith_skipn (p s : pystr) :
  startswith p s = true ->
  (length (skipn (length p) s) + length p = length s)%nat.
Proof.
  revert s; induction p as [|x p IH]; intros s H; simpl.
  - lia.
  - destruct s as [|y s]; [discriminate|]. simpl in H.
    apply andb_true_iff in H as [_ H]. apply IH in H. simpl. lia.
Qed.

Ltac literal_case E H p :=
  injection H as _ <-;
  pose proof (startswith_skipn p _ E) as HL;
  simpl in HL |- *; lia.

(** Every parser that succeeds has read at least one character. *)
Lemma parsers_consume (n : nat) :
  (forall s v r, scan_once n s = Some (v, r) -> (length r < length s)%nat)
  /\ (forall s v r, JSONObject n s = Some (v, r) -> (length r < length s)%nat)
  /\ (forall s p v r,
        object_members n s p = Some (v, r) -> (length r < length s)%nat)
  /\ (forall s v r, JSONArray n s = Some (v, r) -> (length r < length s)%nat)
  /\ (forall s vs v r,
        array_elems n s vs = Some (v, r) -> (length r < length s)%nat).
Proof.
  induction n as [|n (IHs & IHo & IHm & IHa & IHe)].
  { repeat split; intros; discriminate. }
  repeat split.
  - intros [|c r0] v r H; [discriminate|]. cbn [scan_once] in H.
    destruct (c =? QUOTE).
    { destruct (scanstring r0) as [[x rest]|] eqn:E; [|discriminate].
      injection H as _ <-. apply scanstring_length in E. cbn [length]; lia. }
    destruct (c =? LBRACE).
    { apply IHo in H. cbn [length]; lia. }
    destruct (c =? LBRACKET).
    { apply IHa in H. cbn [length]; lia. }
    destruct (startswith (u "null") (c :: r0)) eqn:E1.
    { literal_case E1 H (u "null"). }
    destruct (startswith (u "true") (c :: r0)) eqn:E2.
    { literal_case E2 H (u "true"). }
    destruct (startswith (u "false") (c :: r0)) eqn:E3.
    { literal_case E3 H (u "false"). }
    destruct (match_number (c :: r0)) as [[x rest]|] eqn:E4.
    { injection H as _ <-. apply match_number_length in E4. exact E4. }
    destruct (startswith (u "NaN") (c :: r0)) eqn:E5.
    { literal_case E5 H (u "NaN"). }
    destruct (startswith (u "Infinity") (c :: r0)) eqn:E6.
    { literal_case E6 H (u "Infinity"). }
    destruct (startswith (u "-Infinity") (c :: r0)) eqn:E7.
    { literal_case E7 H (u "-Infinity"). }
    discriminate.
  - intros s v r H. cbn [JSONObject] in H.
    destruct (skip_ws s) as [|c r0] eqn:W; [discriminate|].
    apply skip_ws_cons in W.
    destruct (c =? RBRACE).
    { injection H as _ <-. exact W. }
    destruct (c =? QUOTE); [|discriminate].
    apply IHm in H. lia.
  - intros s p v r H. cbn [object_members] in H.
    destruct (scanstring s) as [[key s1]|] eqn:K; [|discriminate].
    apply scanstring_length in K.
    destruct (skip_ws s1) as [|c s2] eqn:W1; [discriminate|].
    apply skip_ws_cons in W1.
    destruct (c =? COLON); [|discriminate].
    destruct (scan_once n (skip_ws s2)) as [[value s3]|] eqn:V;
      [|discriminate].
    apply IHs in V. pose proof (skip_ws_length s2) as W2.
    destruct (skip_ws s3) as [|d s4] eqn:W3; [discriminate|].
    apply skip_ws_cons in W3.
    destruct (d =? RBRACE).
    { injection H as _ <-. lia. }
    destruct (d =? COMMA); [|discriminate].
    destruct (skip_ws s4) as [|q s5] eqn:W4; [discriminate|].
    apply skip_ws_cons in W4.
    destruct (q =? QUOTE); [|discriminate].
    apply IHm in H. lia.
  - intros s v r H. cbn [JSONArray] in H.
    destruct (skip_ws s) as [|c r0] eqn:W; [discriminate|].
    apply skip_ws_cons in W.
    destruct (c =? RBRACKET).
    { injection H as _ <-. exact W. }
    apply IHe in H. cbn [length] in H. lia.
  - intros s vs v r H. cbn [array_elems] in H.
    destruct (scan_once n s) as [[value s1]|] eqn:V; [|discriminate].
    apply IHs in V.
    destruct (skip_ws s1) as [|d s2] eqn:W1; [discriminate|].
    apply skip_ws_cons in W1.
    destruct (d =? RBRACKET).
    { injection H as _ <-. lia. }
    destruct (d =? COMMA); [|discriminate].
    apply IHe in H. pose proof (skip_ws_length s2) as W2. lia.
Qed.

Lemma scan_once_consumes (n : nat) (s : pystr) (v : pyval) (r : pystr) :
  scan_once n s = Some (v, r) -> (length r < length s)%nat.
Proof. apply (parsers_consume n). Qed.

(** Beyond what the text can use, the amount of fuel plays no part. *)
Lemma parsers_fuel_free (n : nat) :
  (forall m s, (3 * length s < n)%nat -> (3 * length s < m)%nat ->
               scan_once n s = scan_once m s)
  /\ (forall m s, (3 * length s + 2 < n)%nat -> (3 * length s + 2 < m)%nat ->
                  JSONObject n s = JSONObject m s)
  /\ (forall m s p, (3 * length s + 1 < n)%nat -> (3 * length s + 1 < m)%nat ->
                    object_members n s p = object_members m s p)
  /\ (forall m s, (3 * length s + 2 < n)%nat -> (3 * length s + 2 < m)%nat ->
                  JSONArray n s = JSONArray m s)
  /\ (forall m s vs, (3 * length s + 1 < n)%nat -> (3 * length s + 1 < m)%nat ->
                     array_elems n s vs = array_elems m s vs).
Proof.
  induction n as [|n (IHs & IHo & IHm & IHa & IHe)].
  { repeat split; intros; lia. }
  repeat split.
  - intros [|m] [|c r0] Hn Hm; try reflexivity; try lia.
    cbn [length] in Hn, Hm. cbn [scan_once].
    rewrite (IHo m r0) by lia. rewrite (IHa m r0) by lia. reflexivity.
  - intros [|m] s Hn Hm; [lia|]. cbn [JSONObject].
    destruct (skip_ws s) as [|c r0] eqn:W; [reflexivity|].
    apply skip_ws_cons in W.
    rewrite (IHm m r0) by lia. reflexivity.
  - intros [|m] s p Hn Hm; [lia|]. cbn [object_members].
    destruct (scanstring s) as [[key s1]|] eqn:K; [|reflexivity].
    apply scanstring_length in K.
    destruct (skip_ws s1) as [|c s2] eqn:W1; [reflexivity|].
    apply skip_ws_cons in W1.
    destruct (c =? COLON); [|reflexivity].
    pose proof (skip_ws_length s2) as W2.
    rewrite (IHs m (skip_ws s2)) by lia.
    destruct (scan_once m (skip_ws s2)) as [[value s3]|] eqn:V;
      [|reflexivity].
    apply scan_once_consumes in V.
    destruct (skip_ws s3) as [|d s4] eqn:W3; [reflexivity|].
    apply skip_ws_cons in W3.
    destruct (d =? RBRACE); [reflexivity|].
    destruct (d =? COMMA); [|reflexivity].
    destruct (skip_ws s4) as [|q s5] eqn:W4; [reflexivity|].
    apply skip_ws_cons in W4.
    destruct (q =? QUOTE); [|reflexivity].
    apply IHm; lia.
  - intros [|m] s Hn Hm; [lia|]. cbn [JSONArray].
    destruct (skip_ws s) as [|c r0] eqn:W; [reflexivity|].
    apply skip_ws_cons in W.
    destruct (c =? RBRACKET); [reflexivity|].
    apply IHe; cbn [length]; lia.
  - intros [|m] s vs Hn Hm; [lia|]. cbn [array_elems].
    rewrite (IHs m s) by lia.
    destruct (scan_once m s) as [[value s1]|] eqn:V; [|reflexivity].
    apply scan_once_consumes in V.
    destruct (skip_ws s1) as [|d s2] eqn:W1; [reflexivity|].
    apply skip_ws_cons in W1.
    destruct (d =? RBRACKET); [reflexivity|].
    destruct (d =? COMMA); [|reflexivity].
    pose proof (skip_ws_length s2) as W2.
    apply IHe; lia.
Qed.

(** [loads] gives what any larger amount of fuel gives. *)
Lemma loads_fuel (s : pystr) (n : nat) :
  (fuel_for s <= n)%nat ->
  loads s =
  if startswith [65279] s then None
  else
    match scan_once n (skip_ws s) with
    | Some (v, rest) =>
        match skip_ws rest with
        | [] => Some v
        | _ :: _ => None
        end
    | None => None
    end.
Proof.
  intros H. unfold loads, fuel_for in *.
  pose proof (skip_ws_length s) as W.
  rewrite (proj1 (parsers_fuel_free (S (3 * length s))) n (skip_ws s))
    by lia.
  reflexivity.
Qed.

End JsonFuel.

(** ** What json.dumps writes, json.loads reads back *)

Module JsonRoundTrip.

Import Json JsonEnc JsonFacts.

Local Open Scope N_scope.

(** Linear arithmetic with division by a constant. *)
Ltac lia_div := zify; Z.to_euclidean_division_equations; lia.

Lemma lor_disjoint (a b : N) : b < 1024 -> N.lor (a * 1024) b = a * 1024 + b.
Proof.
  intros H.
  assert (Z : N.land (a * 1024) b = 0).
  { apply N.bits_inj. intros i. rewrite N.land_spec, N.bits_0.
    change 1024 with (2 ^ 10).
    destruct (N.lt_ge_cases i 10) as [Hi|Hi].
    - rewrite N.mul_pow2_bits_low by exact Hi. reflexivity.
    - rewrite <- (N.mod_small b (2 ^ 10)) by exact H.
      rewrite N.mod_pow2_bits_high by exact Hi. apply andb_false_r. }
  rewrite <- (N.lxor_lor _ _ Z). symmetry. apply N.add_nocarry_lxor, Z.
Qed.

Lemma hex_digit_hex_char (d : N) : d < 16 -> hex_digit (hex_char d) = Some d.
Proof.
  intros H.
  assert (C : d = 0 \/ d = 1 \/ d = 2 \/ d = 3 \/ d = 4 \/ d = 5 \/ d = 6
              \/ d = 7 \/ d = 8 \/ d = 9 \/ d = 10 \/ d = 11 \/ d = 12
              \/ d = 13 \/ d = 14 \/ d = 15) by lia.
  repeat (destruct C as [->|C]; [reflexivity|]). subst d. reflexivity.
Qed.

Lemma decode_u_escape (n : N) (rest : pystr) :
  n < 65536 ->
  exists x, u_escape n ++ rest = BACKSLASH :: 117 :: x
            /\ decode_uXXXX x = Some (n, rest).
Proof.
  intros H. eexists. split; [reflexivity|].
  cbn [app decode_uXXXX].
  rewrite !N.shiftr_div_pow2.
  rewrite !hex_digit_hex_char by (apply N.mod_upper_bound; discriminate).
  f_equal. f_equal.
  change (2 ^ 12) with 4096. change (2 ^ 8) with 256. change (2 ^ 4) with 16.
  lia_div.
Qed.

(** One step of [scanstring_loop]. *)
Lemma scanstring_loop_quote (f : nat) (r : pystr) :
  scanstring_loop (S f) (QUOTE :: r) = Some ([], r).
Proof. reflexivity. Qed.

Lemma scanstring_loop_plain (f : nat) (c : char) (r : pystr) :
  (c =? QUOTE) = false -> (c =? BACKSLASH) = false -> (c <? 32) = false ->
  scanstring_loop (S f) (c :: r) = cons_to c (scanstring_loop f r).
Proof. intros H1 H2 H3. cbn [scanstring_loop]. rewrite H1, H2, H3. reflexivity. Qed.

Lemma scanstring_loop_short (f : nat) (e x : char) (r : pystr) :
  (e =? 117) = false -> backslash_escape e = Some x ->
  scanstring_loop (S f) (BACKSLASH :: e :: r) = cons_to x (scanstring_loop f r).
Proof.
  intros H1 H2. destruct f; cbn [scanstring_loop];
    change (BACKSLASH =? QUOTE) with false;
    change (BACKSLASH =? BACKSLASH) with true; cbv iota;
    rewrite H1, H2; reflexivity.
Qed.

Lemma scanstring_loop_u (f : nat) (x : pystr) :
  scanstring_loop (S f) (BACKSLASH :: 117 :: x) =
  match decode_uXXXX x with
  | None => None
  | Some (uni, r2) =>
      if is_high_surrogate uni && startswith [BACKSLASH; 117] r2
      then
        match decode_uXXXX (skipn 2 r2) with
        | None => None
        | Some (uni2, r3) =>
            if is_low_surrogate uni2
            then cons_to (join_surrogates uni uni2) (scanstring_loop f r3)
            else cons_to uni (scanstring_loop f r2)
        end
      else cons_to uni (scanstring_loop f r2)
  end.
Proof. destruct f; reflexivity. Qed.

Lemma scan_plain (c : char) (rest : pystr) :
  (c =? QUOTE) = false -> (c =? BACKSLASH) = false -> (c <? 32) = false ->
  scanstring (c :: rest) = cons_to c (scanstring rest).
Proof.
  intros H1 H2 H3. unfold scanstring at 1. cbn [length].
  rewrite scanstring_loop_plain by assumption. reflexivity.
Qed.

Lemma scan_short_escape (e x : char) (rest : pystr) :
  (e =? 117) = false -> backslash_escape e = Some x ->
  scanstring (BACKSLASH :: e :: rest) = cons_to x (scanstring rest).
Proof.
  intros H1 H2. unfold scanstring at 1. cbn [length].
  rewrite (scanstring_loop_short _ _ _ _ H1 H2).
  rewrite scanstring_loop_enough by lia. reflexivity.
Qed.

Lemma scan_u_escape (n : N) (rest : pystr) :
  n < 65536 -> is_high_surrogate n = false ->
  scanstring (u_escape n ++ rest) = cons_to n (scanstring rest).
Proof.
  intros H1 H2. destruct (decode_u_escape n rest H1) as (x & E & D).
  rewrite E. unfold scanstring at 1. cbn [length].
  rewrite scanstring_loop_u, D, H2. cbn [andb].
  apply decode_uXXXX_length in D.
  rewrite scanstring_loop_enough by lia. reflexivity.
Qed.

Lemma scan_surrogate_pair (c : char) (rest : pystr) :
  65536 <= c -> c <= 1114111 ->
  scanstring
    (u_escape (N.lor 55296 (N.land (N.shiftr (c - 65536) 10) 1023))
     ++ u_escape (N.lor 56320 (N.land (c - 65536) 1023)) ++ rest)
  = cons_to c (scanstring rest).
Proof.
  intros H1 H2.
  change 1023 with (N.ones 10). rewrite !N.land_ones, N.shiftr_div_pow2.
  change (2 ^ 10) with 1024.
  change 55296 with (54 * 1024). change 56320 with (55 * 1024).
  rewrite !lor_disjoint by (apply N.mod_upper_bound; discriminate).
  set (hi := 54 * 1024 + ((c - 65536) / 1024) mod 1024).
  set (lo := 55 * 1024 + (c - 65536) mod 1024).
  assert (Hhi : hi < 65536) by (unfold hi; lia_div).
  assert (Hlo : lo < 65536) by (unfold lo; lia_div).
  destruct (decode_u_escape lo rest Hlo) as (y & E' & D').
  destruct (decode_u_escape hi (u_escape lo ++ rest) Hhi) as (x & E & D).
  rewrite E. unfold scanstring at 1. cbn [length].
  rewrite scanstring_loop_u, D.
  assert (S1 : is_high_surrogate hi = true).
  { unfold is_high_surrogate, hi. apply andb_true_iff.
    split; apply N.leb_le; lia_div. }
  assert (S2 : is_low_surrogate lo = true).
  { unfold is_low_surrogate, lo. apply andb_true_iff.
    split; apply N.leb_le; lia_div. }
  rewrite S1, E'. cbn [andb].
  change (startswith [BACKSLASH; 117] (BACKSLASH :: 117 :: y)) with true.
  cbv iota. cbn [skipn]. rewrite D', S2.
  assert (J : join_surrogates hi lo = c).
  { unfold join_surrogates. rewrite N.shiftl_mul_pow2.
    change (2 ^ 10) with 1024.
    replace (hi - 55296) with (((c - 65536) / 1024) mod 1024)
      by (unfold hi; lia_div).
    replace (lo - 56320) with ((c - 65536) mod 1024) by (unfold lo; lia_div).
    rewrite lor_disjoint by (apply N.mod_upper_bound; discriminate).
    lia_div. }
  rewrite J.
  apply decode_uXXXX_length in D, D'. rewrite E' in D. cbn [length] in D.
  rewrite scanstring_loop_enough by lia_div. reflexivity.
Qed.

(** Every escape reads back as the character it stands for. *)
Lemma scan_escape_char (c : char) (rest : pystr) :
  scalar c = true ->
  scanstring (escape_char c ++ rest) = cons_to c (scanstring rest).
Proof.
  intros Hs. unfold escape_char.
  destruct (N.eqb_spec c 92) as [->|N1].
  { apply (scan_short_escape 92 92); reflexivity. }
  destruct (N.eqb_spec c 34) as [->|N2].
  { apply (scan_short_escape 34 34); reflexivity. }
  destruct (N.eqb_spec c 8) as [->|N3].
  { apply (scan_short_escape 98 8); reflexivity. }
  destruct (N.eqb_spec c 12) as [->|N4].
  { apply (scan_short_escape 102 12); reflexivity. }
  destruct (N.eqb_spec c 10) as [->|N5].
  { apply (scan_short_escape 110 10); reflexivity. }
  destruct (N.eqb_spec c 13) as [->|N6].
  { apply (scan_short_escape 114 13); reflexivity. }
  destruct (N.eqb_spec c 9) as [->|N7].
  { apply (scan_short_escape 116 9); reflexivity. }
  destruct ((32 <=? c) && (c <=? 126)) eqn:P.
  { apply andb_true_iff in P as [P1 P2]. apply N.leb_le in P1, P2.
    cbn [app]. apply scan_plain.
    - apply N.eqb_neq. exact N2.
    - apply N.eqb_neq. exact N1.
    - apply N.ltb_ge. exact P1. }
  unfold scalar in Hs.
  destruct (N.ltb_spec c 65536) as [B|B].
  - apply scan_u_escape; [exact B|].
    unfold is_high_surrogate.
    destruct (N.ltb_spec c 55296) as [Q|Q].
    + apply andb_false_iff. left. apply N.leb_gt. exact Q.
    + cbn [orb] in Hs. apply andb_true_iff in Hs as [Hs _].
      apply N.ltb_lt in Hs. apply andb_false_iff. right.
      apply N.leb_gt. lia.
  - rewrite <- app_assoc. apply scan_surrogate_pair; [exact B|].
    destruct (N.ltb_spec c 55296) as [Q|Q]; [lia|].
    cbn [orb] in Hs. apply andb_true_iff in Hs as [_ Hs].
    apply N.leb_le in Hs. exact Hs.
Qed.

(** What [json.dumps] writes for a string reads back as that string. *)
Lemma encode_basestring_ascii_literal (s : pystr) :
  forallb scalar s = true -> string_literal (encode_basestring_ascii s) s.
Proof.
  intros H. exists (flat_map escape_char s ++ [QUOTE]).
  split; [reflexivity|].
  induction s as [|c s IH]; [reflexivity|].
  cbn [forallb] in H. apply andb_true_iff in H as [Hc H].
  cbn [flat_map]. rewrite <- app_assoc.
  rewrite (scan_escape_char _ _ Hc), (IH H). reflexivity.
Qed.

End JsonRoundTrip.

(** ** The response normalizer *)

Module Normalizer.

Import PyStrFacts Tiers JsonFacts.

#[local] Abbreviation L := Json.LBRACE.
#[local] Abbreviation R := Json.RBRACE.

(** Membership in a list that is written out. *)
Ltac absent :=
  let H := fresh in
  intros H; repeat (destruct H as [H|H]; [discriminate H|]); exact H.

Lemma tier2_candidate [s candidate : pystr] :
  Json.loads s = None -> first_to_last_brace s candidate ->
  safe_parse_json s =
  match Json.loads candidate with
  | Some v => v
  | None => fallback_record s
  end.
Proof.
  intros E (pre & mid & post & -> & H1 & H2 & ->).
  apply tier2; assumption.
Qed.

Lemma unparseable_fallback [s : pystr] :
  unparseable s -> safe_parse_json s = fallback_record s.
Proof.
  intros [E H]. rewrite safe_parse_json_unfold, E.
  destruct (span_test s) eqn:T; [|reflexivity].
  destruct (span_test_sound _ T) as (pre & mid & post & -> & H1 & H2).
  rewrite span_slice by assumption.
  rewrite (H (L :: mid ++ [R])); [reflexivity|].
  exists pre, mid, post. repeat split; assumption.
Qed.

(** The span is what the slice of the source takes, and a text either
    has one or has no opening brace with a closing brace after it. *)
Lemma first_to_last_brace_slice [s candidate : pystr] :
  first_to_last_brace s candidate ->
  candidate = slice s (find s (u "{")) (rfind s (u "}") + 1).
Proof.
  intros (pre & mid & post & -> & H1 & H2 & ->).
  symmetry. apply span_slice; assumption.
Qed.

Lemma brace_span_dichotomy (s : pystr) :
  (exists candidate, first_to_last_brace s candidate) \/ no_brace_span s.
Proof.
  destruct (span_test s) eqn:T.
  - left. destruct (span_test_sound _ T) as (pre & mid & post & E & H1 & H2).
    exists (L :: mid ++ [R]), pre, mid, post. auto.
  - right. intros pre mid post E.
    rewrite (span_test_complete _ _ _ _ E) in T. discriminate T.
Qed.

Lemma parses_object_safe [s : pystr] [d : pydict] :
  parses_object s d -> safe_parse_json s = PDict d.
Proof.
  intros [E | (E & candidate & H & C)].
  - apply tier1, E.
  - rewrite (tier2_candidate E H), C. reflexivity.
Qed.

Lemma parse_model_output_dict [s : pystr] [d : pydict] :
  safe_parse_json s = PDict d ->
  parse_model_output s =
  Returns (match dict_lookup KEY_ANALYSIS d with
           | Some v => v
           | None => PStr DEFAULT_ANALYSIS
           end,
           match dict_lookup KEY_TREATMENT d with
           | Some v => v
           | None => PStr DEFAULT_TREATMENT
           end).
Proof. intros E. unfold parse_model_output. rewrite E. reflexivity. Qed.

Lemma dict_lookup_In [k : pystr] [d : pydict] [v : pyval] :
  dict_lookup k d = Some v -> In (k, v) d.
Proof.
  induction d as [|[k' v'] d IH]; simpl; [discriminate|].
  destruct (str_eqb k' k) eqn:E.
  - apply str_eqb_eq in E as ->. intros H; injection H as ->.
    left; reflexivity.
  - intros H; right; apply IH, H.
Qed.

Lemma dict_lookup_absent (k : pystr) (d : pydict) :
  (forall v, ~ In (k, v) d) -> dict_lookup k d = None.
Proof.
  intros H. destruct (dict_lookup k d) as [v|] eqn:E; [|reflexivity].
  destruct (H v (dict_lookup_In E)).
Qed.

(** The normalizer raises exactly when the direct parse gives a value
    that is not an object. *)
Lemma normalizer_raises_iff (s : pystr) :
  (exists e, parse_model_output s = Raises e)
  <-> (exists v, Json.loads s = Some v /\ forall d, v <> PDict d).
Proof.
  split.
  - intros [e H].
    assert (N : forall d, safe_parse_json s <> PDict d).
    { intros d E. rewrite (parse_model_output_dict E) in H. discriminate. }
    rewrite safe_parse_json_unfold in N.
    destruct (Json.loads s) as [v|] eqn:E; [exists v; split; [reflexivity|exact N]|].
    exfalso. destruct (span_test s) eqn:T; [|exact (N _ eq_refl)].
    destruct (span_test_sound _ T) as (pre & mid & post & -> & H1 & H2).
    rewrite span_slice in N by assumption.
    destruct (Json.loads (L :: mid ++ [R])) as [v|] eqn:C;
      [|exact (N _ eq_refl)].
    destruct (loads_brace_dict _ _ C) as [d ->]. exact (N _ eq_refl).
  - intros (v & E & N). unfold parse_model_output.
    rewrite (tier1 _ _ E).
    destruct v; try (eexists; reflexivity). destruct (N _ eq_refl).
Qed.

(** C1 (the code departs from the claim): on the text 123 the direct
    parse succeeds with the integer 123, which has no [get], so that
    the normalizer raises AttributeError instead of returning two
    strings. *)
Theorem normalizer_raises_on_non_object :
  Json.loads (u "123") = Some (PInt 123)
  /\ safe_parse_json (u "123") = PInt 123
  /\ parse_model_output (u "123")
     = Raises (AttributeError (u "'int' object has no attribute 'get'")).
Proof. repeat split; vm_compute; reflexivity. Qed.

(** C2, as stated, fails: the empty text is normalized to a treatment
    that is the empty string. *)
Lemma empty_text_gives_empty_treatment :
  ~ populated_nonempty (parse_model_output (u "")).
Proof.
  intros (a & t & E & _ & Ht). vm_compute in E.
  injection E as _ <-. apply Ht; reflexivity.
Qed.

Lemma empty_text_unparseable : unparseable (u "").
Proof.
  split; [reflexivity|].
  intros candidate (pre & mid & post & E & _).
  destruct pre; discriminate E.
Qed.

(** C2, amended: when nothing parses, or when a tier reads a JSON object
    whose analysis and treatment values, where present, are strings,
    both fields are present strings, never absent and never null.  A
    field is empty only where the text supplies an empty string: the
    fallback treatment of a text that is empty once trimmed, or an
    empty value in the object. *)
Theorem fields_populated (s : pystr) :
  unparseable s \/ (exists d, parses_object s d /\ string_fields d) ->
  exists a t,
    parse_model_output s = Returns (PStr a, PStr t)
    /\ (a = [] ->
        exists d, parses_object s d
                  /\ dict_lookup KEY_ANALYSIS d = Some (PStr []))
    /\ (t = [] ->
        (unparseable s /\ strip s = [])
        \/ exists d, parses_object s d
                     /\ dict_lookup KEY_TREATMENT d = Some (PStr [])).
Proof.
  intros [H | (d & H & Ha & Ht)].
  - pose proof (unparseable_fallback H) as E.
    rewrite (parse_model_output_dict E). cbn [dict_lookup].
    change (str_eqb KEY_ANALYSIS KEY_ANALYSIS) with true.
    change (str_eqb KEY_ANALYSIS KEY_TREATMENT) with false.
    change (str_eqb KEY_TREATMENT KEY_TREATMENT) with true. cbv iota.
    eexists. eexists. split; [reflexivity|]. split; [discriminate|].
    intros E0. left. split; [exact H|].
    change 2000%Z with (Z.of_nat 2000) in E0. rewrite slice_prefix in E0.
    destruct (strip s); [reflexivity | discriminate E0].
  - pose proof (parses_object_safe H) as E.
    rewrite (parse_model_output_dict E).
    destruct (dict_lookup KEY_ANALYSIS d) as [a|] eqn:Ea;
      [destruct (Ha a eq_refl) as [x ->]|];
      (destruct (dict_lookup KEY_TREATMENT d) as [t|] eqn:Et;
       [destruct (Ht t eq_refl) as [y ->]|]);
      eexists; eexists; (split; [reflexivity|]); split;
      try discriminate; intros ->; try right; exists d; split; assumption.
Qed.

(** The empty text is a case of it. *)
Lemma fields_populated_witness :
  exists a t,
    parse_model_output (u "") = Returns (PStr a, PStr t)
    /\ (a = [] ->
        exists d, parses_object (u "") d
                  /\ dict_lookup KEY_ANALYSIS d = Some (PStr []))
    /\ (t = [] ->
        (unparseable (u "") /\ strip (u "") = [])
        \/ exists d, parses_object (u "") d
                     /\ dict_lookup KEY_TREATMENT d = Some (PStr [])).
Proof. apply fields_populated. left. exact empty_text_unparseable. Defined.

(** C3: the direct parse wins when it succeeds; otherwise the text from
    the first opening brace to the last closing brace, both included,
    is parsed when there is such a text, and wins when it parses;
    otherwise the result is the fallback record.  A text has such a
    span or has no opening brace with a closing brace after it, and the
    span is the slice the source takes.  On a text with a valid
    object followed by a stray pair of braces the second tier takes the
    span up to the last closing brace, which does not parse, although
    the first balanced object alone would. *)
Theorem three_tiers_in_order (s : pystr) :
  (forall v, Json.loads s = Some v -> safe_parse_json s = v)
  /\ (Json.loads s = None ->
      forall candidate,
        first_to_last_brace s candidate ->
        safe_parse_json s =
        match Json.loads candidate with
        | Some v => v
        | None => fallback_record s
        end)
  /\ (Json.loads s = None -> no_brace_span s ->
      safe_parse_json s = fallback_record s)
  /\ ((exists candidate, first_to_last_brace s candidate) \/ no_brace_span s)
  /\ (forall candidate,
        first_to_last_brace s candidate ->
        candidate = slice s (find s (u "{")) (rfind s (u "}") + 1))
  /\ (let text :=
        uq "prefix {`analysis`:`a`,`treatment`:`t`} suffix {ignored}" in
      Json.loads text = None
      /\ first_to_last_brace text
           (uq "{`analysis`:`a`,`treatment`:`t`} suffix {ignored}")
      /\ Json.loads (uq "{`analysis`:`a`,`treatment`:`t`} suffix {ignored}")
         = None
      /\ Json.loads (uq "{`analysis`:`a`,`treatment`:`t`}")
         = Some (PDict [(u "analysis", PStr (u "a"));
                        (u "treatment", PStr (u "t"))])
      /\ safe_parse_json text = fallback_record text).
Proof.
  split; [|split; [|split; [|split; [|split]]]].
  - intros v E. apply tier1, E.
  - intros E candidate H. apply (tier2_candidate E H).
  - intros E H. apply tier3; assumption.
  - apply brace_span_dichotomy.
  - intros candidate H. apply (first_to_last_brace_slice H).
  - cbv zeta. split; [vm_compute; reflexivity|].
    split; [|repeat split; vm_compute; reflexivity].
    exists (u "prefix "), (uq "`analysis`:`a`,`treatment`:`t`} suffix {ignored"), [].
    split; [vm_compute; reflexivity|].
    split; [vm_compute; absent|].
    split; [intros []|vm_compute; reflexivity].
Qed.

(** A text wrapped in prose is read by the second tier. *)
Lemma three_tiers_in_order_witness :
  safe_parse_json (uq "Sure: {`analysis`:`a`,`treatment`:`t`} I hope it helps")
  = PDict [(u "analysis", PStr (u "a")); (u "treatment", PStr (u "t"))].
Proof.
  pose proof
    (proj1 (proj2 (three_tiers_in_order
                     (uq "Sure: {`analysis`:`a`,`treatment`:`t`} I hope it helps"))))
    as H.
  rewrite (H ltac:(vm_compute; reflexivity)
             (uq "{`analysis`:`a`,`treatment`:`t`}")).
  - reflexivity.
  - exists (u "Sure: "), (uq "`analysis`:`a`,`treatment`:`t`"),
      (u " I hope it helps").
    split; [reflexivity|].
    split; [vm_compute; absent|].
    split; [vm_compute; absent|reflexivity].
Defined.

(** C4: when neither tier parses, the analysis is the fixed sentence and
    the treatment is the text without the spaces at its two ends, cut
    to its first 2000 characters; a text of 5000 characters that neither
    starts nor ends with a space gives a treatment of exactly 2000. *)
Theorem fallback_literal_and_cap (s : pystr) :
  unparseable s ->
  parse_model_output s
  = Returns (PStr (u "Could not parse structured analysis from the model output."),
             PStr (firstn 2000 (strip s)))
  /\ (exists pre post,
        s = pre ++ strip s ++ post
        /\ forallb isspace pre = true /\ forallb isspace post = true)
  /\ trimmed (strip s)
  /\ length (firstn 2000 (strip s)) <= 2000
  /\ (length s = 5000 -> trimmed s ->
      length (firstn 2000 (strip s)) = 2000).
Proof.
  intros H. pose proof (unparseable_fallback H) as E.
  rewrite (parse_model_output_dict E). cbn [dict_lookup].
  change (str_eqb KEY_ANALYSIS KEY_ANALYSIS) with true.
  change (str_eqb KEY_ANALYSIS KEY_TREATMENT) with false.
  change (str_eqb KEY_TREATMENT KEY_TREATMENT) with true. cbv iota.
  change 2000%Z with (Z.of_nat 2000). rewrite slice_prefix.
  split; [reflexivity|].
  split; [apply strip_split|].
  split; [apply strip_trimmed|].
  split.
  - apply firstn_le_length.
  - intros Hl Hs. rewrite (strip_of_trimmed _ Hs), length_firstn, Hl.
    reflexivity.
Qed.

Lemma repeated_letter_unparseable : unparseable (repeat 120%N 5000).
Proof.
  split; [vm_compute; reflexivity|].
  intros candidate (pre & mid & post & E & _).
  assert (H : In L (repeat 120%N 5000)).
  { rewrite E. apply in_or_app. right. left. reflexivity. }
  apply repeat_spec in H. discriminate H.
Qed.

Lemma repeated_letter_trimmed : trimmed (repeat 120%N 5000).
Proof.
  split.
  - intros c r E.
    assert (H : In c (repeat 120%N 5000)) by (rewrite E; left; reflexivity).
    apply repeat_spec in H. subst c. reflexivity.
  - intros r c E.
    assert (H : In c (repeat 120%N 5000)).
    { rewrite E. apply in_or_app. right. left. reflexivity. }
    apply repeat_spec in H. subst c. reflexivity.
Qed.

(** Five thousand times the letter x. *)
Lemma fallback_literal_and_cap_witness :
  length (firstn 2000 (strip (repeat 120%N 5000))) = 2000.
Proof.
  apply (fallback_literal_and_cap _ repeated_letter_unparseable).
  - vm_compute; reflexivity.
  - exact repeated_letter_trimmed.
Defined.

(** C5: when a tier reads a JSON object, each field is the value under
    exactly its key, and the default sentence when no item has that
    key; the other items play no part.  An object with the analysis
    alone gets the default treatment, and a key in another case does
    not count. *)
Theorem missing_keys_defaulted (s : pystr) (d : pydict) :
  parses_object s d ->
  parse_model_output s
  = Returns (match dict_lookup (u "analysis") d with
             | Some v => v
             | None => PStr (u "Analysis not available.")
             end,
             match dict_lookup (u "treatment") d with
             | Some v => v
             | None => PStr (u "Treatment not available.")
             end)
  /\ (forall k v, dict_lookup k d = Some v -> In (k, v) d)
  /\ ((forall v, ~ In (u "analysis", v) d) ->
      dict_lookup (u "analysis") d = None)
  /\ ((forall v, ~ In (u "treatment", v) d) ->
      dict_lookup (u "treatment") d = None)
  /\ parse_model_output (uq "{`analysis`:`only this`}")
     = Returns (PStr (u "only this"), PStr (u "Treatment not available."))
  /\ parse_model_output (uq "{`Analysis`:`x`,`note`:[1],`treatment`:`rest`}")
     = Returns (PStr (u "Analysis not available."), PStr (u "rest")).
Proof.
  intros H. apply parses_object_safe in H.
  split; [apply (parse_model_output_dict H)|].
  split; [intros k v; apply dict_lookup_In|].
  split; [apply dict_lookup_absent|].
  split; [apply dict_lookup_absent|].
  split; vm_compute; reflexivity.
Qed.

Lemma missing_keys_defaulted_witness :
  parse_model_output (uq "{`treatment`:`rest well`,`extra`:true}")
  = Returns (PStr (u "Analysis not available."), PStr (u "rest well")).
Proof.
  refine (proj1 (missing_keys_defaulted
                   (uq "{`treatment`:`rest well`,`extra`:true}")
                   [(u "treatment", PStr (u "rest well"));
                    (u "extra", PBool true)] _)).
  left. vm_compute. reflexivity.
Defined.

Lemma literal_object_parses [alit tlit A T : pystr] :
  string_literal alit A -> string_literal tlit T ->
  Json.loads (object2 (uq "`analysis`") alit (uq "`treatment`") tlit)
  = Some (PDict [(u "analysis", PStr A); (u "treatment", PStr T)]).
Proof.
  intros Ha Ht.
  rewrite (loads_object2 _ _ _ _ (u "analysis") A (u "treatment") T);
    try assumption.
  - reflexivity.
  - eexists; split; reflexivity.
  - eexists; split; reflexivity.
Qed.

Lemma dumps_object2 (k1 v1 k2 v2 : pystr) :
  JsonEnc.dumps [(k1, v1); (k2, v2)]
  = object2 (JsonEnc.encode_basestring_ascii k1)
            (JsonEnc.encode_basestring_ascii v1)
            (JsonEnc.encode_basestring_ascii k2)
            (JsonEnc.encode_basestring_ascii v2).
Proof.
  unfold JsonEnc.dumps, object2. cbn [map JsonEnc.join fst snd].
  rewrite <- !app_assoc. reflexivity.
Qed.

(** C6: a text that is exactly an object with the keys analysis and
    treatment, in this order, and string literals for values is read by
    the direct parse, and the two fields are the strings the literals
    denote.  What [json.dumps] writes for a dict of two strings of
    Unicode scalar values is such a text. *)
Theorem valid_reply_unchanged (alit tlit A T : pystr) :
  string_literal alit A -> string_literal tlit T ->
  Json.loads (uq "{`analysis`: " ++ alit ++ uq ", `treatment`: " ++ tlit
              ++ u "}")
  = Some (PDict [(u "analysis", PStr A); (u "treatment", PStr T)])
  /\ parse_model_output (uq "{`analysis`: " ++ alit ++ uq ", `treatment`: "
                         ++ tlit ++ u "}")
     = Returns (PStr A, PStr T)
  /\ (forallb scalar A = true -> forallb scalar T = true ->
      parse_model_output
        (JsonEnc.dumps [(u "analysis", A); (u "treatment", T)])
      = Returns (PStr A, PStr T)).
Proof.
  intros Ha Ht.
  pose proof (literal_object_parses Ha Ht) as E.
  split; [exact E|]. split.
  - apply (parse_model_output_dict (tier1 _ _ E)).
  - intros SA ST.
    apply JsonRoundTrip.encode_basestring_ascii_literal in SA, ST.
    rewrite dumps_object2.
    apply (parse_model_output_dict
             (tier1 _ _ (literal_object_parses SA ST))).
Qed.

Lemma valid_reply_unchanged_witness :
  parse_model_output
    (uq "{`analysis`: `With what I see, it is a rash.`, `treatment`: `Keep it dry.\nSee a doctor.`}")
  = Returns (PStr (u "With what I see, it is a rash."),
             PStr (u "Keep it dry." ++ NL ++ u "See a doctor.")).
Proof.
  refine (proj1 (proj2 (valid_reply_unchanged
                          (uq "`With what I see, it is a rash.`")
                          (uq "`Keep it dry.\nSee a doctor.`") _ _ _ _))).
  - eexists; split; reflexivity.
  - eexists; split; reflexivity.
Defined.

(** C7: on the empty text the direct parse fails, there is no opening
    brace, and the result is the fixed analysis with an empty
    treatment. *)
Theorem empty_text_falls_back :
  Json.loads (u "") = None
  /\ find (u "") (u "{") = (-1)%Z
  /\ safe_parse_json (u "") = fallback_record (u "")
  /\ parse_model_output (u "")
     = Returns (PStr (u "Could not parse structured analysis from the model output."),
                PStr (u "")).
Proof. repeat split. Qed.

End Normalizer.

(** ** The orchestrator *)

Module OrchestratorFacts.

Import PyStrFacts.

Lemma filter_absent (p : pystr) (l : list pystr) :
  existsb (str_eqb p) l = false ->
  filter (fun q => negb (str_eqb p q)) l = l.
Proof.
  induction l as [|q l IH]; simpl; [reflexivity|].
  destruct (str_eqb p q); simpl; [discriminate|].
  intros H. rewrite IH by exact H. reflexivity.
Qed.

Lemma without_file_absent (p : pystr) (w : World) :
  existsb (str_eqb p) (files (without_file p w)) = false.
Proof.
  unfold without_file. cbn [files].
  induction (files w) as [|q l IH]; simpl; [reflexivity|].
  destruct (str_eqb p q) eqn:E; simpl; [exact IH|].
  rewrite E. exact IH.
Qed.

Section Collaborators.

Variable GROQ_KEY GROQ_API_KEY : option pystr.
Variable transcribe_with_groq :
  option pystr -> pystr -> pystr -> M (option pystr).
Variable text_to_speech_with_gtts : pystr -> pystr -> M unit.
Variable read_binary : pystr -> M (list N).
Variable b64encode : list N -> pystr.
Variable chat_completion :
  option pystr -> pystr -> pystr -> pystr -> M (option pystr).
Variable repr_value : pyval -> pystr.

#[local] Abbreviation transcribe_step' :=
  (transcribe_step GROQ_KEY transcribe_with_groq).
#[local] Abbreviation query_model' :=
  (query_model GROQ_API_KEY read_binary b64encode chat_completion).
#[local] Abbreviation upstream' :=
  (upstream GROQ_KEY GROQ_API_KEY transcribe_with_groq read_binary b64encode
            chat_completion).
#[local] Abbreviation speak' tts := (speak tts repr_value).
#[local] Abbreviation process' tts :=
  (process_inputs GROQ_KEY GROQ_API_KEY transcribe_with_groq tts read_binary
                  b64encode chat_completion repr_value).
#[local] Abbreviation fmt' := (fmt repr_value).

(** A world without a file at [p] is itself once that file is gone. *)
Lemma without_file_absent_same (p : pystr) (w : World) :
  existsb (str_eqb p) (files w) = false -> without_file p w = w.
Proof.
  intros X. unfold without_file. rewrite (filter_absent _ _ X).
  destruct w; reflexivity.
Qed.

(** Step 4 as a function of what the removal of the old audio file and
    the synthesis do. *)
Lemma speak_spec (tts : pystr -> pystr -> M unit)
  (analysis treatment : pyval) (w : World) :
  speak' tts analysis treatment w =
  match unlink_error TTS_PATH w with
  | Some e => (Returns (tts_failure_note repr_value treatment e, None), w)
  | None =>
      match tts (tts_text repr_value analysis treatment) TTS_PATH
                (without_file TTS_PATH w) with
      | (Returns _, w') => (Returns (treatment, Some TTS_PATH), w')
      | (Raises e, w') =>
          (Returns (tts_failure_note repr_value treatment e, None), w')
      | (RaisesBase b, w') => (RaisesBase b, w')
      end
  end.
Proof.
  unfold speak, try_except, bind, path_exists, unlink, ret.
  cbv beta iota.
  destruct (existsb (str_eqb TTS_PATH) (files w)) eqn:X; cbv beta iota;
    rewrite ?X; cbv beta iota.
  - destruct (unlink_error TTS_PATH w) as [e|]; [reflexivity|].
    destruct (tts _ _ _) as [[x|e|b] w']; reflexivity.
  - unfold unlink_error. rewrite X, (without_file_absent_same _ _ X).
    destruct (tts _ _ _) as [[x|e|b] w']; reflexivity.
Qed.

(** [process_inputs] is the steps before the synthesis, then the
    synthesis. *)
Lemma process_inputs_upstream (tts : pystr -> pystr -> M unit)
  (audio image : option pystr) (w : World) :
  process' tts audio image w =
  match upstream' audio image w with
  | (Returns (stt_text, analysis, treatment), w1) =>
      match speak' tts analysis treatment w1 with
      | (Returns tp, w2) =>
          (Returns (stt_text, analysis, fst tp, snd tp), w2)
      | (Raises e, w2) => (Raises e, w2)
      | (RaisesBase b, w2) => (RaisesBase b, w2)
      end
  | (Raises e, w1) => (Raises e, w1)
  | (RaisesBase b, w1) => (RaisesBase b, w1)
  end.
Proof.
  unfold process_inputs, upstream, bind, lift, ret.
  destruct (transcribe_step' audio w) as [[stt|e|b] w1]; try reflexivity.
  destruct (query_model' stt image w1) as [[raw|e|b] w2]; try reflexivity.
  destruct (parse_reply raw) as [[a t]|e|b]; reflexivity.
Qed.

(** The call of the model is guarded: an exception it raises is turned
    into a text for the normalizer. *)
Lemma query_model_never_raises (stt : pystr) (image : option pystr)
  (w w' : World) (e : pyexc) :
  query_model' stt image w <> (Raises e, w').
Proof.
  unfold query_model, try_except, ret.
  destruct (truthy image);
    match goal with
    | |- context [match ?m w with _ => _ end] => destruct (m w) as [[x|e0|b] w0]
    end; discriminate.
Qed.

(** C8: once the earlier steps have returned, an old file at final.mp3
    is removed before the synthesis is called, which therefore runs in
    a world where no file is left at that path; when the synthesis
    raises an exception, the audio path returned is None and the
    treatment returned is the treatment followed by a note that carries
    the text of the exception; when it returns, the path is final.mp3
    and the treatment is as it was.  The four values are returned either
    way.  When the old file is there and cannot be removed, the
    synthesis is not called, whatever it is: the failure of the removal
    is reported in the same note, with None as the audio path, and the
    world is left as it was.  Only an exception outside Exception that
    the synthesis raises is passed on. *)
Theorem synthesis_after_cleanup_and_recovery
  (audio image : option pystr) (w w1 : World)
  (stt_text : pystr) (analysis treatment : pyval) :
  upstream' audio image w = (Returns (stt_text, analysis, treatment), w1) ->
  match unlink_error (u "final.mp3") w1 with
  | Some e =>
      forall tts : pystr -> pystr -> M unit,
        process' tts audio image w
        = (Returns (stt_text, analysis,
                    PStr (fmt' treatment ++ NL ++ NL
                          ++ u "[TTS generation failed: " ++ exc_str e
                          ++ u "]"),
                    None), w1)
  | None =>
      existsb (str_eqb (u "final.mp3"))
              (files (without_file (u "final.mp3") w1)) = false
      /\ match text_to_speech_with_gtts
                 (fmt' analysis ++ u " " ++ fmt' treatment) (u "final.mp3")
                 (without_file (u "final.mp3") w1) with
         | (Returns _, w2) =>
             process' text_to_speech_with_gtts audio image w
             = (Returns (stt_text, analysis, treatment,
                         Some (u "final.mp3")), w2)
         | (Raises e, w2) =>
             process' text_to_speech_with_gtts audio image w
             = (Returns (stt_text, analysis,
                         PStr (fmt' treatment ++ NL ++ NL
                               ++ u "[TTS generation failed: " ++ exc_str e
                               ++ u "]"),
                         None), w2)
         | (RaisesBase b, w2) =>
             process' text_to_speech_with_gtts audio image w
             = (RaisesBase b, w2)
         end
  end.
Proof.
  intros U.
  change (u "final.mp3") with TTS_PATH.
  destruct (unlink_error TTS_PATH w1) as [e|] eqn:R.
  - intros tts. rewrite process_inputs_upstream, U, speak_spec, R.
    reflexivity.
  - split; [apply without_file_absent|].
    rewrite process_inputs_upstream, U, speak_spec, R.
    change (tts_text repr_value analysis treatment)
      with (fmt' analysis ++ u " " ++ fmt' treatment).
    destruct (text_to_speech_with_gtts _ _ _) as [[x|e|b] w2]; reflexivity.
Qed.

(** C9: with an audio input whose transcription raises an exception,
    the transcript is the text of the exception inside the STT error
    brackets, and the rest of the request runs on it.  The prompt that is
    sent to the model is the system prompt followed by the line of the
    patient's speech with that transcript (and by the notice when there
    is no image), with the encoded image or the text None in the url;
    an exception of the reading of the image or of the model is turned
    into the text of an error reply.  The reply goes through the
    normalizer, whose exception, if any, ends the request; otherwise
    the synthesis is called on the analysis and the treatment, after the
    removal of the old audio file, and the request returns the
    transcript, the analysis, and the treatment and the audio path as
    the synthesis step leaves them. *)
Theorem transcription_failure_inline
  (audio image : option pystr) (w w1 : World) (e : pyexc) :
  truthy audio = true ->
  transcribe_with_groq GROQ_KEY (path_of audio) (u "whisper-large-v3") w
  = (Raises e, w1) ->
  let stt_text := u "[STT error: " ++ exc_str e ++ u "]" in
  let prompt :=
    SYSTEM_PROMPT_TEMPLATE ++ NL ++ NL
    ++ u "Patient speech (transcription): " ++ stt_text ++ NL ++ NL in
  transcribe_step' audio w = (Returns stt_text, w1)
  /\ query_model' stt_text image w1
     = (if truthy image then
          match read_binary (path_of image) w1 with
          | (Returns bytes, wr) =>
              match chat_completion GROQ_API_KEY MODEL_NAME prompt
                      (u "data:image/jpeg;base64," ++ b64encode bytes) wr with
              | (Returns reply, w2) => (Returns reply, w2)
              | (Raises e', w2) =>
                  (Returns
                     (Some (JsonEnc.dumps
                              [(u "analysis", u "Image processing error");
                               (u "treatment",
                                u "Failed to analyze image due to error: "
                                ++ exc_str e')])), w2)
              | (RaisesBase b, w2) => (RaisesBase b, w2)
              end
          | (Raises e', w2) =>
              (Returns
                 (Some (JsonEnc.dumps
                          [(u "analysis", u "Image processing error");
                           (u "treatment",
                            u "Failed to analyze image due to error: "
                            ++ exc_str e')])), w2)
          | (RaisesBase b, w2) => (RaisesBase b, w2)
          end
        else
          match chat_completion GROQ_API_KEY MODEL_NAME
                  (prompt ++ u "No image provided.")
                  (u "data:image/jpeg;base64,None") w1 with
          | (Returns reply, w2) => (Returns reply, w2)
          | (Raises e', w2) =>
              (Returns
                 (Some (JsonEnc.dumps
                          [(u "analysis", u "Image not provided or unclear");
                           (u "treatment",
                            u "No image was provided. If you can, please upload a clear photo. Error detail: "
                            ++ exc_str e')])), w2)
          | (RaisesBase b, w2) => (RaisesBase b, w2)
          end)
  /\ forall reply w2,
       query_model' stt_text image w1 = (Returns reply, w2) ->
       match parse_reply reply with
       | Returns (analysis, treatment) =>
           match unlink_error (u "final.mp3") w2 with
           | Some e' =>
               process' text_to_speech_with_gtts audio image w
               = (Returns (stt_text, analysis,
                           PStr (fmt' treatment ++ NL ++ NL
                                 ++ u "[TTS generation failed: "
                                 ++ exc_str e' ++ u "]"),
                           None), w2)
           | None =>
               match text_to_speech_with_gtts
                       (fmt' analysis ++ u " " ++ fmt' treatment)
                       (u "final.mp3") (without_file (u "final.mp3") w2) with
               | (Returns _, w3) =>
                   process' text_to_speech_with_gtts audio image w
                   = (Returns (stt_text, analysis, treatment,
                               Some (u "final.mp3")), w3)
               | (Raises e', w3) =>
                   process' text_to_speech_with_gtts audio image w
                   = (Returns (stt_text, analysis,
                               PStr (fmt' treatment ++ NL ++ NL
                                     ++ u "[TTS generation failed: "
                                     ++ exc_str e' ++ u "]"),
                               None), w3)
               | (RaisesBase b, w3) =>
                   process' text_to_speech_with_gtts audio image w
                   = (RaisesBase b, w3)
               end
           end
       | Raises e' =>
           process' text_to_speech_with_gtts audio image w = (Raises e', w2)
       | RaisesBase b =>
           process' text_to_speech_with_gtts audio image w
           = (RaisesBase b, w2)
       end.
Proof.
  intros Ha Ht stt_text prompt.
  assert (T : transcribe_step' audio w = (Returns stt_text, w1)).
  { unfold transcribe_step, try_except, bind. rewrite Ha, Ht. reflexivity. }
  split; [exact T|]. split.
  - unfold query_model, try_except, encode_image, analyze_image_with_query,
      bind, ret.
    change (base_prompt stt_text) with prompt.
    destruct (truthy image);
      [destruct (read_binary (path_of image) w1) as [[bytes|e'|b] wr]|];
      reflexivity.
  - intros reply w2 Q.
    rewrite process_inputs_upstream.
    unfold upstream, bind, lift, ret. rewrite T, Q.
    change (u "final.mp3") with TTS_PATH.
    destruct (parse_reply reply) as [[analysis treatment]|e'|b];
      try reflexivity.
    cbn [fst snd]. rewrite speak_spec.
    change (tts_text repr_value analysis treatment)
      with (fmt' analysis ++ u " " ++ fmt' treatment).
    destruct (unlink_error TTS_PATH w2) as [e'|]; [reflexivity|].
    destruct (text_to_speech_with_gtts _ _ _) as [[x|e'|b] w3]; reflexivity.
Qed.

(** C10: two requests that differ in the synthesis service alone return
    the same transcript and the same analysis, those of the steps
    before the synthesis; a request whose audio path is None returns the
    treatment of these steps followed by the failure note, and one with
    an audio path returns that treatment as it is. *)
Theorem synthesis_failure_frame
  (tts tts' : pystr -> pystr -> M unit)
  (audio image : option pystr) (w wa wb : World)
  (ra rb : pystr * pyval * pyval * option pystr) :
  process' tts audio image w = (Returns ra, wa) ->
  process' tts' audio image w = (Returns rb, wb) ->
  exists stt_text analysis treatment w1,
    upstream' audio image w = (Returns (stt_text, analysis, treatment), w1)
    /\ transcript_of ra = stt_text /\ transcript_of rb = stt_text
    /\ analysis_of ra = analysis /\ analysis_of rb = analysis
    /\ (audio_of ra = None ->
        exists e, treatment_of ra
                  = PStr (fmt' treatment ++ NL ++ NL
                          ++ u "[TTS generation failed: " ++ exc_str e
                          ++ u "]"))
    /\ (audio_of ra <> None -> treatment_of ra = treatment).
Proof.
  rewrite !process_inputs_upstream.
  destruct (upstream' audio image w) as [[[[stt a] t]|e|b] w1];
    try discriminate.
  rewrite !speak_spec.
  destruct (unlink_error TTS_PATH w1) as [e0|].
  - intros A B; injection A as <- _; injection B as <- _.
    exists stt, a, t, w1; repeat split; cbn;
      try discriminate; try congruence; intros _; exists e0; reflexivity.
  - destruct (tts _ _ _) as [[x|e|b] w2], (tts' _ _ _) as [[x'|e'|b'] w2'];
      try discriminate;
      intros A B; injection A as <- _; injection B as <- _;
      exists stt, a, t, w1; repeat split; cbn;
      try discriminate; try congruence; intros _; exists e; reflexivity.
Qed.

End Collaborators.

(** A request with an old audio file in place and a synthesis service
    that is down, and a request in a working directory where final.mp3
    is a directory. *)
Lemma synthesis_after_cleanup_and_recovery_witness :
  process_inputs Mock.key Mock.key Mock.transcribe_ok Mock.tts_down
    Mock.read_binary Mock.b64encode Mock.chat Mock.repr_value
    None None (mkWorld [u "final.mp3"; u "notes.txt"])
  = (Returns ([], PStr (u "a rash"),
              PStr (u "keep it dry" ++ NL ++ NL
                    ++ u "[TTS generation failed: no route to host]"),
              None),
     mkWorld [u "notes.txt"])
  /\ process_inputs Mock.key Mock.key Mock.transcribe_ok Mock.tts_ok
       Mock.read_binary Mock.b64encode Mock.chat Mock.repr_value
       None None MockMore.final_mp3_is_a_directory
     = (Returns ([], PStr (u "a rash"),
                 PStr (u "keep it dry" ++ NL ++ NL
                       ++ u "[TTS generation failed: [Errno 21] Is a directory: 'final.mp3']"),
                 None),
        MockMore.final_mp3_is_a_directory).
Proof.
  split.
  - exact (proj2 (synthesis_after_cleanup_and_recovery
                    Mock.key Mock.key Mock.transcribe_ok Mock.tts_down
                    Mock.read_binary Mock.b64encode Mock.chat Mock.repr_value
                    None None (mkWorld [u "final.mp3"; u "notes.txt"])
                    (mkWorld [u "final.mp3"; u "notes.txt"])
                    [] (PStr (u "a rash")) (PStr (u "keep it dry")) eq_refl)).
  - exact (synthesis_after_cleanup_and_recovery
             Mock.key Mock.key Mock.transcribe_ok Mock.tts_down
             Mock.read_binary Mock.b64encode Mock.chat Mock.repr_value
             None None MockMore.final_mp3_is_a_directory
             MockMore.final_mp3_is_a_directory
             [] (PStr (u "a rash")) (PStr (u "keep it dry")) eq_refl
             Mock.tts_ok).
Defined.

(** A request with a recording, a picture and a transcription service
    that is down. *)
Lemma transcription_failure_inline_witness :
  process_inputs Mock.key Mock.key Mock.transcribe_down Mock.tts_ok
    Mock.read_binary Mock.b64encode Mock.chat Mock.repr_value
    (Some (u "speech.wav")) (Some (u "skin.jpg")) (mkWorld [u "notes.txt"])
  = (Returns (u "[STT error: connection refused]", PStr (u "a rash"),
              PStr (u "keep it dry"), Some (u "final.mp3")),
     mkWorld [u "final.mp3"; u "notes.txt"]).
Proof.
  exact (proj2 (proj2 (transcription_failure_inline
                         Mock.key Mock.key Mock.transcribe_down Mock.tts_ok
                         Mock.read_binary Mock.b64encode Mock.chat
                         Mock.repr_value
                         (Some (u "speech.wav")) (Some (u "skin.jpg"))
                         (mkWorld [u "notes.txt"]) (mkWorld [u "notes.txt"])
                         (OtherException (u "connection refused"))
                         eq_refl eq_refl))
           (Some (uq "{`analysis`: `a rash`, `treatment`: `keep it dry`}"))
           (mkWorld [u "notes.txt"]) eq_refl).
Defined.

(** The same request with the synthesis service down and up. *)
Lemma synthesis_failure_frame_witness :
  exists stt_text analysis treatment w1,
    upstream Mock.key Mock.key Mock.transcribe_ok Mock.read_binary
             Mock.b64encode Mock.chat (Some (u "speech.wav")) None (mkWorld [])
    = (Returns (stt_text, analysis, treatment), w1)
    /\ stt_text = u "my skin itches" /\ analysis = PStr (u "a rash").
Proof.
  destruct (synthesis_failure_frame
              Mock.key Mock.key Mock.transcribe_ok
              Mock.read_binary Mock.b64encode Mock.chat Mock.repr_value
              Mock.tts_down Mock.tts_ok
              (Some (u "speech.wav")) None (mkWorld [])
              (mkWorld []) (mkWorld [u "final.mp3"])
              (u "my skin itches", PStr (u "a rash"),
               PStr (u "keep it dry" ++ NL ++ NL
                     ++ u "[TTS generation failed: no route to host]"),
               None)
              (u "my skin itches", PStr (u "a rash"), PStr (u "keep it dry"),
               Some (u "final.mp3"))
              eq_refl eq_refl)
    as (stt & a & t & w1 & U & A & _ & B & _).
  exists stt, a, t, w1. split; [exact U|].
  split; [symmetry; exact A | symmetry; exact B].
Defined.

End OrchestratorFacts.

(** * Further properties *)

(** ** More on the response normalizer *)

Module NormalizerMore.

Import Json PyStrFacts Tiers JsonFacts JsonFuel Normalizer.

Local Open Scope N_scope.

#[local] Abbreviation L := Json.LBRACE.
#[local] Abbreviation R := Json.RBRACE.

(** *** What [safe_parse_json] can return *)

Lemma safe_parse_json_cases (s : pystr) :
  (exists d, safe_parse_json s = PDict d)
  \/ (exists v, loads s = Some v /\ (forall d, v <> PDict d)
                /\ safe_parse_json s = v).
Proof.
  rewrite safe_parse_json_unfold.
  destruct (loads s) as [v|] eqn:E.
  - destruct v; try (right; eexists; repeat split; discriminate).
    left. eexists; reflexivity.
  - left. destruct (span_test s) eqn:T; [|eexists; reflexivity].
    destruct (span_test_sound _ T) as (pre & mid & post & -> & H1 & H2).
    rewrite span_slice by assumption.
    destruct (loads (L :: mid ++ [R])) as [v|] eqn:C; [|eexists; reflexivity].
    destruct (loads_brace_dict _ _ C) as [d ->]. eexists; reflexivity.
Qed.


(** X1: [safe_parse_json] returns a dict, and the two fields are then
    returned, in every case but one: the direct parse gives a value
    that is not an object, which is returned as it is and makes the
    first [get] raise AttributeError. *)
Theorem safe_parse_json_dict_or_direct_value (s : pystr) :
  (exists d a t,
     safe_parse_json s = PDict d /\ parse_model_output s = Returns (a, t))
  \/ (exists v,
        loads s = Some v /\ (forall d, v <> PDict d)
        /\ safe_parse_json s = v
        /\ parse_model_output s
           = Raises (AttributeError
                       (u "'" ++ type_name v
                        ++ u "' object has no attribute 'get'"))).
Proof.
  destruct (safe_parse_json_cases s) as [[d E] | (v & E & N & S)].
  - left. exists d. rewrite (parse_model_output_dict E).
    eexists; eexists; split; [exact E | reflexivity].
  - right. exists v. repeat split; try assumption.
    unfold parse_model_output. rewrite S.
    destruct v; try reflexivity. destruct (N _ eq_refl).
Qed.

(** *** Replies wrapped in prose or in a code fence *)

Lemma skip_ws_app_cons (pre rest : pystr) (c : N) (r : pystr) :
  skip_ws pre = c :: r -> skip_ws (pre ++ rest) = c :: r ++ rest.
Proof.
  induction pre as [|x pre IH]; [discriminate|]. cbn [skip_ws app].
  destruct (is_ws x); [exact IH|].
  intros H; injection H as <- <-. reflexivity.
Qed.

Lemma startswith_head (p s : pystr) (x c : N) :
  startswith (x :: p) (c :: s) = true -> x = c.
Proof. cbn [startswith]. intros H. apply andb_true_iff in H as [H _].
  apply N.eqb_eq, H. Qed.

Lemma match_number_start (c : N) (r : pystr) :
  (c =? MINUS) = false -> is_digit c = false -> match_number (c :: r) = None.
Proof.
  intros H1 H2. unfold match_number, match_integer. rewrite H1, H2.
  destruct (c =? ZERO) eqn:Z; [|reflexivity].
  apply N.eqb_eq in Z. subst c. discriminate H2.
Qed.

Lemma scan_once_bad_start (n : nat) (s : pystr) :
  value_start s = false -> scan_once n s = None.
Proof.
  destruct n as [|n]; [reflexivity|]. destruct s as [|c r]; [reflexivity|].
  unfold value_start. intros H.
  repeat (apply orb_false_iff in H as [H ?]).
  cbn [scan_once]. rewrite H.
  repeat match goal with
         | E : ?b = false |- context [if ?b then _ else _] => rewrite E
         end.
  rewrite match_number_start by assumption.
  destruct (startswith (u "-Infinity") (c :: r)) eqn:E; [|reflexivity].
  apply startswith_head in E. subst c. discriminate.
Qed.

Lemma loads_bad_start (s : pystr) :
  value_start (skip_ws s) = false -> loads s = None.
Proof.
  intros H. unfold loads.
  destruct (startswith [65279] s); [reflexivity|].
  rewrite scan_once_bad_start by exact H. reflexivity.
Qed.

Lemma startswith_before_brace (w s x : pystr) :
  ~ In L w -> startswith w (s ++ L :: x) = startswith w s.
Proof.
  revert s; induction w as [|a w IH]; intros s H; [reflexivity|].
  destruct s as [|y s]; cbn [app startswith].
  - destruct (N.eqb_spec a L) as [->|_]; [|reflexivity].
    exfalso. apply H. left. reflexivity.
  - rewrite IH; [reflexivity|]. intros K. apply H. right. exact K.
Qed.

Lemma value_start_before_brace (c : N) (r x : pystr) :
  value_start ((c :: r) ++ L :: x) = value_start (c :: r).
Proof.
  unfold value_start. cbn [app].
  change (c :: r ++ L :: x) with ((c :: r) ++ L :: x).
  rewrite !startswith_before_brace by (vm_compute; absent).
  reflexivity.
Qed.

(** X2: a reply that wraps a JSON object in prose or in a code fence is
    read by the second tier: when the text before the first opening
    brace cannot open a JSON value, and the text after the last closing
    brace holds no closing brace, the result is the object between the
    two, whatever the direct parse would make of the parts. *)
Theorem wrapped_object_recovered (pre mid post : pystr) (v : pyval) :
  value_start (skip_ws pre) = false -> skip_ws pre <> [] ->
  ~ In L pre -> ~ In R post ->
  loads (L :: mid ++ [R]) = Some v ->
  safe_parse_json (pre ++ L :: mid ++ R :: post) = v
  /\ exists d, v = PDict d.
Proof.
  intros V NE H1 H2 C.
  destruct (skip_ws pre) as [|c r] eqn:W; [destruct (NE eq_refl)|].
  assert (E : loads (pre ++ L :: mid ++ R :: post) = None).
  { apply loads_bad_start.
    rewrite (skip_ws_app_cons _ _ _ _ W).
    change (c :: r ++ L :: mid ++ R :: post)
      with ((c :: r) ++ L :: mid ++ R :: post).
    rewrite value_start_before_brace. exact V. }
  rewrite (tier2 _ _ _ E H1 H2), C.
  split; [reflexivity | exact (loads_brace_dict _ _ C)].
Qed.


(** *** Objects of string members, however they are laid out *)

Lemma skip_ws_run (ws : pystr) (c : N) (x : pystr) :
  forallb is_ws ws = true -> is_ws c = false ->
  skip_ws (ws ++ c :: x) = c :: x.
Proof.
  intros H Hc. induction ws as [|y ws IH]; cbn [app skip_ws].
  - rewrite Hc. reflexivity.
  - cbn [forallb] in H. apply andb_true_iff in H as [-> H]. exact (IH H).
Qed.

Lemma skip_ws_all (ws : pystr) :
  forallb is_ws ws = true -> skip_ws ws = [].
Proof.
  induction ws as [|y ws IH]; [reflexivity|]. cbn [forallb skip_ws].
  intros H. apply andb_true_iff in H as [-> H]. exact (IH H).
Qed.

Lemma members_join_tail (ms : list member) : forall (m : member) (rest : pystr),
  JsonEnc.join [COMMA] (map member_text (m :: ms)) ++ RBRACE :: rest
  = m_before_key m ++ QUOTE :: members_tail m ms rest.
Proof.
  induction ms as [|m' ms IH]; intros m rest.
  - cbn [map JsonEnc.join members_tail]. unfold member_text.
    repeat (rewrite <- !app_assoc; cbn [app]). reflexivity.
  - change (JsonEnc.join [COMMA] (map member_text (m :: m' :: ms)))
      with (member_text m ++ [COMMA]
            ++ JsonEnc.join [COMMA] (map member_text (m' :: ms))).
    rewrite <- !app_assoc. cbn [app]. rewrite IH.
    cbn [members_tail]. unfold member_text.
    repeat (rewrite <- !app_assoc; cbn [app]). reflexivity.
Qed.

Lemma object_text_tail (m : member) (ms : list member) (rest : pystr) :
  object_text (m :: ms) ++ rest
  = LBRACE :: m_before_key m ++ QUOTE :: members_tail m ms rest.
Proof.
  unfold object_text. change (u "{") with [LBRACE].
  change (u "}") with [RBRACE]. change (u ",") with [COMMA].
  cbn [app]. f_equal. rewrite <- !app_assoc. cbn [app].
  apply members_join_tail.
Qed.

Lemma object_members_step (f : nat) (s : pystr) (pairs : list (pystr * pyval)) :
  object_members (S f) s pairs =
  match scanstring s with
  | None => None
  | Some (key, s1) =>
      match skip_ws s1 with
      | c :: s2 =>
          if c =? COLON then
            match scan_once f (skip_ws s2) with
            | None => None
            | Some (value, s3) =>
                match skip_ws s3 with
                | d :: s4 =>
                    if d =? RBRACE
                    then Some (PDict (dict_of_pairs (pairs ++ [(key, value)])),
                               s4)
                    else if d =? COMMA then
                      match skip_ws s4 with
                      | q :: s5 =>
                          if q =? QUOTE
                          then object_members f s5 (pairs ++ [(key, value)])
                          else None
                      | [] => None
                      end
                    else None
                | [] => None
                end
            end
          else None
      | [] => None
      end
  end.
Proof. destruct f; reflexivity. Qed.

Lemma object_members_tail (m : member) (ms : list member) :
  Forall well_formed (m :: ms) ->
  forall (f : nat) (rest : pystr) (pairs : list (pystr * pyval)),
    (length ms < f)%nat ->
    object_members (S f) (members_tail m ms rest) pairs
    = Some (PDict (dict_of_pairs
                     (pairs ++ map (fun x => (m_key x, PStr (m_value x)))
                                   (m :: ms))),
            rest).
Proof.
  revert m; induction ms as [|m' ms IH]; intros m W f rest pairs Hf.
  - apply Forall_inv in W. destruct W as (_ & W2 & W3 & W4 & K & V).
    destruct f as [|f]; [lia|].
    cbn [members_tail]. rewrite object_members_step.
    rewrite (scanstring_app _ K). cbn [app].
    rewrite (skip_ws_run _ COLON _ W2 eq_refl).
    change (COLON =? COLON) with true. cbv iota.
    rewrite (skip_ws_run _ QUOTE _ W3 eq_refl).
    rewrite scan_once_quote, (scanstring_app _ V). cbn [app].
    rewrite (skip_ws_run _ RBRACE _ W4 eq_refl).
    change (RBRACE =? RBRACE) with true. cbv iota. reflexivity.
  - pose proof (Forall_inv_tail W) as W'. apply Forall_inv in W.
    destruct W as (_ & W2 & W3 & W4 & K & V).
    pose proof (Forall_inv W') as (W1' & _).
    destruct f as [|f]; [cbn [length] in Hf; lia|].
    cbn [members_tail]. rewrite object_members_step.
    rewrite (scanstring_app _ K). cbn [app].
    rewrite (skip_ws_run _ COLON _ W2 eq_refl).
    change (COLON =? COLON) with true. cbv iota.
    rewrite (skip_ws_run _ QUOTE _ W3 eq_refl).
    rewrite scan_once_quote, (scanstring_app _ V). cbn [app].
    rewrite (skip_ws_run _ COMMA _ W4 eq_refl).
    change (COMMA =? RBRACE) with false. change (COMMA =? COMMA) with true.
    cbv iota.
    rewrite (skip_ws_run _ QUOTE _ W1' eq_refl).
    change (QUOTE =? QUOTE) with true. cbv iota.
    rewrite (IH m' W' f rest) by (cbn [length] in Hf; lia).
    cbn [map]. rewrite <- app_assoc. reflexivity.
Qed.


Lemma dict_lookup_set_same (k : pystr) (v : pyval) (d : pydict) :
  dict_lookup k (dict_set k v d) = Some v.
Proof.
  induction d as [|[k' v'] d IH]; cbn [dict_set dict_lookup].
  - rewrite str_eqb_refl. reflexivity.
  - destruct (str_eqb k' k) eqn:E; cbn [dict_lookup].
    + rewrite str_eqb_refl. reflexivity.
    + rewrite E. exact IH.
Qed.

Lemma dict_lookup_set_other (k k0 : pystr) (v : pyval) (d : pydict) :
  str_eqb k k0 = false ->
  dict_lookup k0 (dict_set k v d) = dict_lookup k0 d.
Proof.
  intros N. induction d as [|[k' v'] d IH]; cbn [dict_set dict_lookup].
  - rewrite N. reflexivity.
  - destruct (str_eqb k' k) eqn:E; cbn [dict_lookup].
    + apply str_eqb_eq in E. subst k'. rewrite N. reflexivity.
    + rewrite IH. reflexivity.
Qed.

Lemma dict_lookup_fold (k : pystr) (ms : list member) : forall (d : pydict),
  dict_lookup k
    (fold_left (fun d kv => dict_set (fst kv) (snd kv) d)
               (map (fun x => (m_key x, PStr (m_value x))) ms) d)
  = match last_value k ms with
    | Some v => Some (PStr v)
    | None => dict_lookup k d
    end.
Proof.
  induction ms as [|m ms IH]; intros d; [reflexivity|].
  cbn [map fold_left last_value fst snd]. rewrite IH.
  destruct (last_value k ms); [reflexivity|].
  destruct (str_eqb (m_key m) k) eqn:E.
  - apply str_eqb_eq in E. subst k. apply dict_lookup_set_same.
  - apply dict_lookup_set_other, E.
Qed.

Lemma members_tail_length (ms : list member) : forall (m : member) (rest : pystr),
  (length ms < length (members_tail m ms rest))%nat.
Proof.
  induction ms as [|m' ms IH]; intros m rest; cbn [members_tail];
    repeat (rewrite length_app || cbn [length]).
  - lia.
  - specialize (IH m' rest). lia.
Qed.

Lemma JSONObject_step (f : nat) (s : pystr) :
  JSONObject (S f) s =
  match skip_ws s with
  | c :: r =>
      if c =? RBRACE then Some (PDict [], r)
      else if c =? QUOTE then object_members f r []
      else None
  | [] => None
  end.
Proof. destruct f; reflexivity. Qed.

Lemma no_bom_before_brace (lead x : pystr) :
  forallb is_ws lead = true -> startswith [65279] (lead ++ LBRACE :: x) = false.
Proof.
  destruct lead as [|c lead]; [reflexivity|]. cbn [forallb app startswith].
  intros H. apply andb_true_iff in H as [H _].
  destruct (N.eqb_spec 65279 c) as [<-|_]; [discriminate H | reflexivity].
Qed.

(** Such a text, with whitespace around it, is read by the direct
    parse. *)
Lemma loads_object_text (lead trail : pystr) (ms : list member) :
  forallb is_ws lead = true -> forallb is_ws trail = true ->
  Forall well_formed ms ->
  loads (lead ++ object_text ms ++ trail)
  = Some (PDict (dict_of_pairs
                   (map (fun x => (m_key x, PStr (m_value x))) ms))).
Proof.
  intros Hl Ht W. unfold loads, fuel_for.
  destruct ms as [|m ms].
  - unfold object_text. change (u "{") with [LBRACE].
    change (u "}") with [RBRACE]. cbn [map JsonEnc.join app].
    rewrite (no_bom_before_brace _ _ Hl).
    rewrite (skip_ws_run _ LBRACE _ Hl eq_refl).
    rewrite length_app. cbn [length].
    replace (3 * (length lead + S (S (length trail))))%nat
      with (S (S (3 * (length lead + S (S (length trail))) - 2))) by lia.
    rewrite scan_once_lbrace, JSONObject_step. cbn [skip_ws].
    change (is_ws RBRACE) with false. cbv iota.
    change (RBRACE =? RBRACE) with true. cbv iota.
    rewrite (skip_ws_all _ Ht). reflexivity.
  - rewrite object_text_tail.
    rewrite (no_bom_before_brace _ _ Hl).
    rewrite (skip_ws_run _ LBRACE _ Hl eq_refl).
    pose proof (members_tail_length ms m trail) as Hm.
    rewrite length_app. cbn [length]. rewrite length_app. cbn [length].
    set (n := length (members_tail m ms trail)) in *.
    replace (3 * (length lead + S (length (m_before_key m) + S n)))%nat
      with (S (S (S (3 * (length lead + S (length (m_before_key m) + S n))
                     - 3)))) by lia.
    rewrite scan_once_lbrace, JSONObject_step.
    pose proof (Forall_inv W) as (W1 & _).
    rewrite (skip_ws_run _ QUOTE _ W1 eq_refl).
    change (QUOTE =? RBRACE) with false. change (QUOTE =? QUOTE) with true.
    cbv iota.
    rewrite (object_members_tail m ms W) by lia.
    rewrite (skip_ws_all _ Ht). reflexivity.
Qed.

(** X3: a reply that is a JSON object of string members, with any
    whitespace between its tokens and around it, the keys in any order,
    other keys among them and keys repeated, gives for each field the
    value of the last member with exactly that key, and the default
    sentence when there is none. *)
Theorem flat_object_fields (lead trail : pystr) (ms : list member) :
  forallb is_ws lead = true -> forallb is_ws trail = true ->
  Forall well_formed ms ->
  parse_model_output (lead ++ object_text ms ++ trail)
  = Returns (field_of (u "analysis") (u "Analysis not available.") ms,
             field_of (u "treatment") (u "Treatment not available.") ms).
Proof.
  intros Hl Ht W.
  rewrite (parse_model_output_dict
             (tier1 _ _ (loads_object_text _ _ _ Hl Ht W))).
  unfold dict_of_pairs, field_of. rewrite !dict_lookup_fold.
  change KEY_ANALYSIS with (u "analysis").
  change KEY_TREATMENT with (u "treatment").
  destruct (last_value (u "analysis") ms), (last_value (u "treatment") ms);
    reflexivity.
Qed.


Lemma sample_well_formed : Forall well_formed Sample.members.
Proof. repeat constructor. Qed.

(** The sample reply. *)
Lemma flat_object_fields_witness :
  parse_model_output (u " " ++ object_text Sample.members ++ NL)
  = Returns (PStr (u "second"), PStr (u "rest" ++ NL ++ u "well")).
Proof.
  exact (flat_object_fields (u " ") NL Sample.members eq_refl eq_refl
           sample_well_formed).
Defined.

(** A reply inside a code fence. *)
Lemma wrapped_object_recovered_witness :
  safe_parse_json (u "```json" ++ NL ++ uq "{`analysis`: `a`}" ++ NL
                   ++ u "```")
  = PDict [(u "analysis", PStr (u "a"))].
Proof.
  refine (proj1 (wrapped_object_recovered
                   (u "```json" ++ NL) (uq "`analysis`: `a`") (NL ++ u "```")
                   (PDict [(u "analysis", PStr (u "a"))]) _ _ _ _ _)).
  - reflexivity.
  - discriminate.
  - vm_compute; absent.
  - vm_compute; absent.
  - reflexivity.
Defined.

(** *** Plain prose *)

Lemma firstn_head (n : nat) (s : pystr) (c : N) (r : pystr) :
  firstn n s = c :: r -> exists r', s = c :: r'.
Proof.
  destruct n; [discriminate|]. destruct s as [|x s]; [discriminate|].
  cbn [firstn]. intros H; injection H as <- _. eexists; reflexivity.
Qed.

(** X4: a reply that cannot open a JSON value and has no opening brace,
    or no closing brace, comes back as the fixed analysis and, for
    treatment, its text without the whitespace at its two ends, whole
    when that has at most 2000 characters and cut to 2000 otherwise;
    the treatment never starts with whitespace. *)
Theorem prose_reply_falls_back (s : pystr) :
  value_start (skip_ws s) = false -> ~ In L s \/ ~ In R s ->
  parse_model_output s
  = Returns (PStr (u "Could not parse structured analysis from the model output."),
             PStr (firstn 2000 (strip s)))
  /\ ((length (strip s) <= 2000)%nat -> firstn 2000 (strip s) = strip s)
  /\ ((2000 <= length (strip s))%nat ->
      length (firstn 2000 (strip s)) = 2000%nat)
  /\ (forall c r, firstn 2000 (strip s) = c :: r -> isspace c = false).
Proof.
  intros V B.
  assert (E : loads s = None) by (apply loads_bad_start, V).
  assert (F : safe_parse_json s = fallback_record s).
  { apply tier3; [exact E|]. intros pre mid post ->.
    destruct B as [B|B]; apply B; apply in_or_app; right.
    - left; reflexivity.
    - right. apply in_or_app. right. left. reflexivity. }
  rewrite (parse_model_output_dict F). cbn [fallback_record dict_lookup].
  change (str_eqb KEY_ANALYSIS KEY_ANALYSIS) with true.
  change (str_eqb KEY_ANALYSIS KEY_TREATMENT) with false.
  change (str_eqb KEY_TREATMENT KEY_TREATMENT) with true. cbv iota.
  change 2000%Z with (Z.of_nat 2000). rewrite slice_prefix.
  split; [reflexivity|]. split; [apply firstn_all2|]. split.
  - intros H. rewrite length_firstn. lia.
  - intros c r H. destruct (firstn_head _ _ _ _ H) as [r' K].
    exact (proj1 (strip_trimmed s) c r' K).
Qed.

Lemma prose_reply_falls_back_witness :
  parse_model_output (u "  I think you should rest. ")
  = Returns (PStr (u "Could not parse structured analysis from the model output."),
             PStr (u "I think you should rest.")).
Proof.
  refine (proj1 (prose_reply_falls_back (u "  I think you should rest. ")
                   _ _)).
  - reflexivity.
  - left. vm_compute; absent.
Defined.

(** *** What the orchestrator writes, the normalizer reads *)

(** X10: the text [json.dumps] writes for a dict of two strings under
    two different keys, all of Unicode scalar values, is read back by
    [safe_parse_json] as that dict, by the direct parse. *)
Theorem dumped_dict_read_back (k1 v1 k2 v2 : pystr) :
  k1 <> k2 ->
  forallb scalar k1 = true -> forallb scalar v1 = true ->
  forallb scalar k2 = true -> forallb scalar v2 = true ->
  loads (JsonEnc.dumps [(k1, v1); (k2, v2)])
  = Some (PDict [(k1, PStr v1); (k2, PStr v2)])
  /\ safe_parse_json (JsonEnc.dumps [(k1, v1); (k2, v2)])
     = PDict [(k1, PStr v1); (k2, PStr v2)].
Proof.
  intros N K1 V1 K2 V2.
  apply JsonRoundTrip.encode_basestring_ascii_literal in K1, V1, K2, V2.
  pose proof (loads_object2 _ _ _ _ _ _ _ _ K1 V1 K2 V2) as E.
  rewrite <- dumps_object2 in E.
  assert (D : dict_of_pairs [(k1, PStr v1); (k2, PStr v2)]
              = [(k1, PStr v1); (k2, PStr v2)]).
  { unfold dict_of_pairs. cbn [fold_left dict_set fst snd].
    apply str_eqb_neq in N. rewrite N. reflexivity. }
  rewrite D in E. split; [exact E | exact (tier1 _ _ E)].
Qed.

(** A dict whose strings need every kind of escape. *)
Lemma dumped_dict_read_back_witness :
  safe_parse_json
    (JsonEnc.dumps [(u "analysis", 34 :: 92 :: 10 :: 233 :: [128512]);
                    (u "treatment", [9; 127; 8232])])
  = PDict [(u "analysis", PStr (34 :: 92 :: 10 :: 233 :: [128512]));
           (u "treatment", PStr [9; 127; 8232])].
Proof.
  refine (proj2 (dumped_dict_read_back
                   (u "analysis") (34 :: 92 :: 10 :: 233 :: [128512])
                   (u "treatment") [9; 127; 8232]
                   _ eq_refl eq_refl eq_refl eq_refl)).
  discriminate.
Defined.

End NormalizerMore.

(** ** More on the orchestrator *)

Module OrchestratorMore.

Import PyStrFacts Tiers JsonFacts Normalizer NormalizerMore OrchestratorFacts.

(** What [json.dumps] writes for the two fields is read back. *)
Lemma payload_read_back (a t : pystr) :
  forallb scalar a = true -> forallb scalar t = true ->
  parse_model_output (JsonEnc.dumps [(KEY_ANALYSIS, a); (KEY_TREATMENT, t)])
  = Returns (PStr a, PStr t).
Proof.
  intros SA ST.
  apply JsonRoundTrip.encode_basestring_ascii_literal in SA, ST.
  rewrite dumps_object2.
  apply (parse_model_output_dict (tier1 _ _ (literal_object_parses SA ST))).
Qed.

Section Collaborators.

Variable GROQ_KEY GROQ_API_KEY : option pystr.
Variable transcribe_with_groq :
  option pystr -> pystr -> pystr -> M (option pystr).
Variable text_to_speech_with_gtts : pystr -> pystr -> M unit.
Variable read_binary : pystr -> M (list N).
Variable b64encode : list N -> pystr.
Variable chat_completion :
  option pystr -> pystr -> pystr -> pystr -> M (option pystr).
Variable repr_value : pyval -> pystr.

#[local] Abbreviation transcribe_step' :=
  (transcribe_step GROQ_KEY transcribe_with_groq).
#[local] Abbreviation encode_image' := (encode_image read_binary b64encode).
#[local] Abbreviation analyze' :=
  (analyze_image_with_query GROQ_API_KEY chat_completion).
#[local] Abbreviation query_model' :=
  (query_model GROQ_API_KEY read_binary b64encode chat_completion).
#[local] Abbreviation upstream' :=
  (upstream GROQ_KEY GROQ_API_KEY transcribe_with_groq read_binary b64encode
            chat_completion).
#[local] Abbreviation speak' := (speak text_to_speech_with_gtts repr_value).
#[local] Abbreviation process' :=
  (process_inputs GROQ_KEY GROQ_API_KEY transcribe_with_groq
                  text_to_speech_with_gtts read_binary b64encode
                  chat_completion repr_value).

(** The transcription is guarded: an exception it raises becomes the
    transcript. *)
Lemma transcribe_step_never_raises (audio : option pystr) (w w1 : World)
  (e : pyexc) :
  transcribe_step' audio w <> (Raises e, w1).
Proof.
  unfold transcribe_step, try_except, bind, ret.
  destruct (truthy audio); [|discriminate].
  destruct (transcribe_with_groq _ _ _ w) as [[r|e0|b] w0]; discriminate.
Qed.

(** X5: the ways a request can end.  The transcription and the call of
    the model are guarded, so that neither raises an exception; a reply
    without content (None) makes the normalizer raise AttributeError on
    find; a reply whose direct parse gives a value that is not an object
    makes the first get raise AttributeError; in both cases the
    synthesis is not reached.  In every other case the normalizer
    returns the two fields, the synthesis step raises no exception, and
    the request returns its four values.  The request passes on an
    exception outside Exception (KeyboardInterrupt, SystemExit) of the
    transcription, of the call of the model or of the synthesis, and
    ends in no other way. *)
Theorem process_inputs_returns_or_attribute_error
  (audio image : option pystr) (w : World) :
  (exists b w1,
     transcribe_step' audio w = (RaisesBase b, w1)
     /\ process' audio image w = (RaisesBase b, w1))
  \/ exists stt_text w1,
       transcribe_step' audio w = (Returns stt_text, w1)
       /\ ((exists b w2,
              query_model' stt_text image w1 = (RaisesBase b, w2)
              /\ process' audio image w = (RaisesBase b, w2))
           \/ exists reply w2,
                query_model' stt_text image w1 = (Returns reply, w2)
                /\ ((reply = None
                     /\ process' audio image w
                        = (Raises (AttributeError
                                     (u "'NoneType' object has no attribute 'find'")),
                           w2))
                    \/ exists raw,
                         reply = Some raw
                         /\ ((exists v,
                                Json.loads raw = Some v
                                /\ (forall d, v <> PDict d)
                                /\ process' audio image w
                                   = (Raises (AttributeError
                                                (u "'" ++ type_name v
                                                 ++ u "' object has no attribute 'get'")),
                                      w2))
                             \/ exists analysis treatment,
                                  parse_model_output raw
                                  = Returns (analysis, treatment)
                                  /\ ((exists b w3,
                                         unlink_error (u "final.mp3") w2 = None
                                         /\ text_to_speech_with_gtts
                                              (tts_text repr_value analysis
                                                        treatment)
                                              (u "final.mp3")
                                              (without_file (u "final.mp3") w2)
                                            = (RaisesBase b, w3)
                                         /\ process' audio image w
                                            = (RaisesBase b, w3))
                                      \/ exists treatment' path w3,
                                           process' audio image w
                                           = (Returns (stt_text, analysis,
                                                       treatment', path),
                                              w3))))).
Proof.
  rewrite process_inputs_upstream. unfold upstream, bind, lift, ret.
  destruct (transcribe_step' audio w) as [[stt|e|b] w1] eqn:T.
  2: { destruct (transcribe_step_never_raises _ _ _ _ T). }
  2: { left. exists b, w1. split; reflexivity. }
  right. exists stt, w1. split; [reflexivity|].
  destruct (query_model' stt image w1) as [[reply|e|b] w2] eqn:Q.
  2: { destruct (query_model_never_raises _ _ _ _ _ _ _ _ _ Q). }
  2: { left. exists b, w2. split; reflexivity. }
  right. exists reply, w2. split; [reflexivity|].
  destruct reply as [raw|]; [right | left; split; reflexivity].
  exists raw. split; [reflexivity|]. cbn [parse_reply].
  destruct (safe_parse_json_cases raw) as [[d E] | (v & E & N & S)].
  - right. rewrite (parse_model_output_dict E). cbn [fst snd].
    eexists; eexists. split; [reflexivity|].
    rewrite speak_spec. change (u "final.mp3") with TTS_PATH.
    destruct (unlink_error TTS_PATH w2) as [e|] eqn:F.
    + right. eexists; eexists; eexists. reflexivity.
    + destruct (text_to_speech_with_gtts _ _ _) as [[x|e|b] w3] eqn:S.
      * right. eexists; eexists; eexists. reflexivity.
      * right. eexists; eexists; eexists. reflexivity.
      * left. exists b, w3. repeat split; reflexivity.
  - left. exists v. split; [exact E|]. split; [exact N|].
    unfold parse_model_output. rewrite S.
    destruct v; try reflexivity. destruct (N _ eq_refl).
Qed.

Lemma forallb_scalar_app (a b : pystr) :
  forallb scalar a = true -> forallb scalar b = true ->
  forallb scalar (a ++ b) = true.
Proof. intros A B. rewrite forallb_app, A, B. reflexivity. Qed.

(** X6: with an image, when reading and encoding the file or the call
    of the model raises, the steps before the synthesis still return:
    the analysis is the fixed notice and the treatment carries the
    text of the exception. *)
Theorem image_failure_reported
  (audio image : option pystr) (w w1 w2 : World) (stt_text : pystr)
  (e : pyexc) :
  transcribe_step' audio w = (Returns stt_text, w1) ->
  truthy image = true ->
  bind (encode_image' (path_of image))
       (fun encoded =>
          analyze' (base_prompt stt_text) MODEL_NAME (Some encoded)) w1
  = (Raises e, w2) ->
  forallb scalar (exc_str e) = true ->
  upstream' audio image w
  = (Returns (stt_text, PStr (u "Image processing error"),
              PStr (u "Failed to analyze image due to error: " ++ exc_str e)),
     w2).
Proof.
  intros T I F S. unfold upstream, bind at 1 2. rewrite T.
  unfold query_model. rewrite I. unfold try_except. rewrite F.
  unfold ret at 1. unfold lift, bind. cbn [parse_reply].
  rewrite payload_read_back;
    [reflexivity | reflexivity | apply forallb_scalar_app; [reflexivity | exact S]].
Qed.

(** X7: without an image, the model is still sent an image part, whose
    url ends in the text None, after a prompt that ends with the notice
    that no image was provided; when the call raises, the analysis is
    the fixed notice and the treatment carries the text of the
    exception. *)
Theorem no_image_request_and_failure
  (audio image : option pystr) (w w1 : World) (stt_text : pystr) :
  transcribe_step' audio w = (Returns stt_text, w1) ->
  truthy image = false ->
  match chat_completion GROQ_API_KEY MODEL_NAME
          (base_prompt stt_text ++ u "No image provided.")
          (u "data:image/jpeg;base64,None") w1 with
  | (Returns raw, w2) => query_model' stt_text image w1 = (Returns raw, w2)
  | (Raises e, w2) =>
      forallb scalar (exc_str e) = true ->
      upstream' audio image w
      = (Returns (stt_text, PStr (u "Image not provided or unclear"),
                  PStr (u "No image was provided. If you can, please upload a clear photo. Error detail: "
                        ++ exc_str e)),
         w2)
  | (RaisesBase b, w2) => upstream' audio image w = (RaisesBase b, w2)
  end.
Proof.
  intros T I.
  assert (Q : query_model' stt_text image w1
              = try_except
                  (chat_completion GROQ_API_KEY MODEL_NAME
                     (base_prompt stt_text ++ u "No image provided.")
                     (u "data:image/jpeg;base64,None"))
                  (fun e =>
                     ret (Some (JsonEnc.dumps
                                  [(KEY_ANALYSIS,
                                    u "Image not provided or unclear");
                                   (KEY_TREATMENT,
                                    u "No image was provided. If you can, please upload a clear photo. Error detail: "
                                    ++ exc_str e)]))) w1).
  { unfold query_model. rewrite I. reflexivity. }
  unfold upstream, bind. rewrite T, Q. unfold try_except.
  destruct (chat_completion _ _ _ _ w1) as [[raw|e|b] w2];
    [reflexivity| |reflexivity].
  intros S. unfold ret at 1. unfold lift. cbn [parse_reply].
  rewrite payload_read_back;
    [reflexivity | reflexivity | apply forallb_scalar_app; [reflexivity | exact S]].
Qed.

(** *** Files *)

Lemma keeps_ret (p : pystr) (A : Type) (a : A) : keeps p (ret a).
Proof. intros w. reflexivity. Qed.

Lemma keeps_lift (p : pystr) (A : Type) (o : outcome A) : keeps p (lift o).
Proof. intros w. reflexivity. Qed.

Lemma keeps_bind (p : pystr) (A B : Type) (m : M A) (k : A -> M B) :
  keeps p m -> (forall a, keeps p (k a)) -> keeps p (bind m k).
Proof.
  intros Hm Hk w. unfold bind. specialize (Hm w).
  destruct (m w) as [[a|e|b] w1]; cbn [snd] in *.
  - rewrite (Hk a w1). exact Hm.
  - exact Hm.
  - exact Hm.
Qed.

Lemma keeps_try (p : pystr) (A : Type) (m : M A) (h : pyexc -> M A) :
  keeps p m -> (forall e, keeps p (h e)) -> keeps p (try_except m h).
Proof.
  intros Hm Hh w. unfold try_except. specialize (Hm w).
  destruct (m w) as [[a|e|b] w1]; cbn [snd] in *.
  - exact Hm.
  - rewrite (Hh e w1). exact Hm.
  - exact Hm.
Qed.

Lemma keeps_path_exists (p q : pystr) : keeps p (path_exists q).
Proof. intros w. reflexivity. Qed.

Lemma keeps_unlink (p q : pystr) : p <> q -> keeps p (unlink q).
Proof.
  intros N w. unfold unlink.
  destruct (existsb (str_eqb q) (files w)); [|reflexivity].
  destruct (unlink_error q w); [reflexivity|].
  cbn [snd]. unfold present, without_file. cbn [files].
  induction (files w) as [|x l IH]; [reflexivity|].
  cbn [filter existsb]. destruct (str_eqb q x) eqn:E; cbn [negb].
  - apply str_eqb_eq in E. subst x.
    apply str_eqb_neq in N. rewrite N. exact IH.
  - cbn [existsb]. rewrite IH. reflexivity.
Qed.

(** X8: [process_inputs] itself creates no file and removes none but
    final.mp3: a file at another path that the collaborators leave as
    it is, is left as it is by the request. *)
Theorem only_final_mp3_is_removed (p : pystr) (audio image : option pystr) :
  p <> u "final.mp3" ->
  (forall k a m, keeps p (transcribe_with_groq k a m)) ->
  (forall path, keeps p (read_binary path)) ->
  (forall k m q url, keeps p (chat_completion k m q url)) ->
  (forall t path, keeps p (text_to_speech_with_gtts t path)) ->
  keeps p (process' audio image).
Proof.
  intros N Ht Hr Hc Hs. unfold process_inputs.
  apply keeps_bind.
  { unfold transcribe_step. apply keeps_try; [|intros; apply keeps_ret].
    destruct (truthy audio); [|apply keeps_ret].
    apply keeps_bind; [apply Ht | intros; apply keeps_ret]. }
  intros stt. apply keeps_bind.
  { unfold query_model. destruct (truthy image).
    - apply keeps_try; [|intros; apply keeps_ret].
      unfold encode_image, analyze_image_with_query.
      apply keeps_bind; [|intros; apply Hc].
      apply keeps_bind; [apply Hr | intros; apply keeps_ret].
    - apply keeps_try; [|intros; apply keeps_ret].
      unfold analyze_image_with_query. apply Hc. }
  intros raw. apply keeps_bind; [apply keeps_lift|].
  intros at_. apply keeps_bind; [|intros; apply keeps_ret].
  unfold speak. apply keeps_try; [|intros; apply keeps_ret].
  apply keeps_bind; [apply keeps_path_exists|]. intros b.
  apply keeps_bind.
  { destruct b; [apply keeps_unlink, N | apply keeps_ret]. }
  intros _. apply keeps_bind; [apply Hs | intros; apply keeps_ret].
Qed.

End Collaborators.

(** X9: without an audio input the transcription service plays no
    part: the request gives the same outcome whatever that service and
    its key are, and the transcript it returns is empty. *)
Theorem no_audio_no_transcription
  (key key' api_key : option pystr)
  (transcribe transcribe' : option pystr -> pystr -> pystr -> M (option pystr))
  (tts : pystr -> pystr -> M unit)
  (read_binary : pystr -> M (list N)) (b64encode : list N -> pystr)
  (chat : option pystr -> pystr -> pystr -> pystr -> M (option pystr))
  (repr_value : pyval -> pystr)
  (audio image : option pystr) (w : World) :
  truthy audio = false ->
  process_inputs key api_key transcribe tts read_binary b64encode chat
                 repr_value audio image w
  = process_inputs key' api_key transcribe' tts read_binary b64encode chat
                   repr_value audio image w
  /\ transcribe_step key transcribe audio w = (Returns [], w)
  /\ forall r w',
       process_inputs key api_key transcribe tts read_binary b64encode chat
                      repr_value audio image w = (Returns r, w') ->
       transcript_of r = [].
Proof.
  intros A.
  assert (T : forall k t, transcribe_step k t audio w = (Returns [], w)).
  { intros k t. unfold transcribe_step, try_except. rewrite A. reflexivity. }
  split; [|split].
  - unfold process_inputs, bind at 1 5. rewrite !T. reflexivity.
  - apply T.
  - intros r w'. rewrite process_inputs_upstream.
    unfold upstream, bind at 1. rewrite T.
    destruct (bind _ _ w) as [[[[stt a] t]|e|b] w1] eqn:U;
      try discriminate.
    assert (stt = []).
    { unfold bind, lift, ret in U.
      destruct (query_model _ _ _ _ _ _ w) as [[raw|e|b] w2];
        try discriminate.
      destruct (parse_reply raw) as [[x y]|e|b]; try discriminate.
      injection U as <- _ _ _. reflexivity. }
    subst stt.
    destruct (speak _ _ _ _ w1) as [[tp|e|b] w2]; try discriminate.
    intros H; injection H as <- _. reflexivity.
Qed.


(** A request with an image whose file is missing. *)
Lemma image_failure_reported_witness :
  upstream Mock.key Mock.key Mock.transcribe_ok MockMore.read_missing
           Mock.b64encode Mock.chat None (Some (u "skin.jpg")) (mkWorld [])
  = (Returns ([], PStr (u "Image processing error"),
              PStr (u "Failed to analyze image due to error: [Errno 2] No such file or directory: 'skin.jpg'")),
     mkWorld []).
Proof.
  exact (image_failure_reported
           Mock.key Mock.key Mock.transcribe_ok MockMore.read_missing
           Mock.b64encode Mock.chat None (Some (u "skin.jpg"))
           (mkWorld []) (mkWorld []) (mkWorld []) []
           (FileNotFoundError
              (u "[Errno 2] No such file or directory: 'skin.jpg'"))
           eq_refl eq_refl eq_refl eq_refl).
Defined.

(** A request without an image while the model service is down. *)
Lemma no_image_request_and_failure_witness :
  upstream Mock.key Mock.key Mock.transcribe_ok Mock.read_binary
           Mock.b64encode MockMore.chat_down None None (mkWorld [])
  = (Returns ([], PStr (u "Image not provided or unclear"),
              PStr (u "No image was provided. If you can, please upload a clear photo. Error detail: Connection error.")),
     mkWorld []).
Proof.
  exact (no_image_request_and_failure
           Mock.key Mock.key Mock.transcribe_ok Mock.read_binary
           Mock.b64encode MockMore.chat_down None None
           (mkWorld []) (mkWorld []) [] eq_refl eq_refl eq_refl).
Defined.

(** A request beside a file of notes, with the synthesis service
    down. *)
Lemma only_final_mp3_is_removed_witness :
  present (u "notes.txt")
    (snd (process_inputs Mock.key Mock.key Mock.transcribe_ok Mock.tts_down
            Mock.read_binary Mock.b64encode Mock.chat Mock.repr_value
            None None (mkWorld [u "final.mp3"; u "notes.txt"])))
  = present (u "notes.txt") (mkWorld [u "final.mp3"; u "notes.txt"]).
Proof.
  apply (only_final_mp3_is_removed
           Mock.key Mock.key Mock.transcribe_ok Mock.tts_down
           Mock.read_binary Mock.b64encode Mock.chat Mock.repr_value
           (u "notes.txt") None None).
  - discriminate.
  - intros k a m w. reflexivity.
  - intros path w. reflexivity.
  - intros k m q url w. reflexivity.
  - intros t path w. reflexivity.
Defined.

(** A request without a recording, with the transcription service up
    and down. *)
Lemma no_audio_no_transcription_witness :
  process_inputs Mock.key Mock.key Mock.transcribe_ok Mock.tts_ok
    Mock.read_binary Mock.b64encode Mock.chat Mock.repr_value
    None None (mkWorld [])
  = process_inputs None Mock.key Mock.transcribe_down Mock.tts_ok
      Mock.read_binary Mock.b64encode Mock.chat Mock.repr_value
      None None (mkWorld []).
Proof.
  exact (proj1 (no_audio_no_transcription
                  Mock.key None Mock.key Mock.transcribe_ok
                  Mock.transcribe_down Mock.tts_ok Mock.read_binary
                  Mock.b64encode Mock.chat Mock.repr_value
                  None None (mkWorld []) eq_refl)).
Defined.

(** A reply without content ends the request in the normalizer. *)
Example reply_without_content_raises :
  process_inputs Mock.key Mock.key Mock.transcribe_ok Mock.tts_ok
    Mock.read_binary Mock.b64encode MockMore.chat_without_content
    Mock.repr_value None None (mkWorld [u "final.mp3"])
  = (Raises (AttributeError (u "'NoneType' object has no attribute 'find'")),
     mkWorld [u "final.mp3"]).
Proof. reflexivity. Qed.

(** An interrupt from the keyboard during the synthesis ends the
    request, after the old audio file is removed. *)
Example interrupted_synthesis_passes_on :
  process_inputs Mock.key Mock.key Mock.transcribe_ok MockMore.tts_interrupted
    Mock.read_binary Mock.b64encode Mock.chat Mock.repr_value
    None None (mkWorld [u "final.mp3"])
  = (RaisesBase KeyboardInterrupt, mkWorld []).
Proof. reflexivity. Qed.

End OrchestratorMore.
